(** * BikaCalculate: the expression evaluator and the keypad session

    A shallow embedding of [safeEval] and of the handlers that drive the
    per-chat calculator ([bot.command("calculator")], [bot.on("callback_query")])
    of [src/index.js].  The two older variants of the bot under [src/unnamed]
    carry the same [safeEval] and the same button handler, and open the
    calculator from [bot.start].

    JavaScript strings are sequences of UTF-16 code units, numbers are
    binary64 floats, the [state] Map is a finite map from chat ids to session
    objects.  The math engine ([mathjs]) is a dependency of the repository: the
    evaluator is written against an arbitrary engine, and a small arithmetic
    engine is provided to run it. *)

From stdpp Require Import gmap.
From Stdlib Require Import ZArith NArith List Bool Ascii String Floats Lia.
Import ListNotations.

Local Open Scope N_scope.

(** ** JavaScript strings *)

Module JS.

(** A string is the list of its UTF-16 code units. *)
Definition jsstring : Type := list N.

(** The code units of an ASCII literal. *)
Definition js (s : string) : jsstring :=
  List.map N_of_ascii (list_ascii_of_string s).

(** WhiteSpace and LineTerminator code points: the characters removed by
    [String.prototype.trim] and matched by the class escape [\s]. *)
Definition is_whitespace (c : N) : bool :=
  (c =? 0x09) || (c =? 0x0A) || (c =? 0x0B) || (c =? 0x0C) || (c =? 0x0D)
  || (c =? 0x20) || (c =? 0xA0) || (c =? 0x1680)
  || ((0x2000 <=? c) && (c <=? 0x200A))
  || (c =? 0x2028) || (c =? 0x2029) || (c =? 0x202F) || (c =? 0x205F)
  || (c =? 0x3000) || (c =? 0xFEFF).

Fixpoint trimStart (s : jsstring) : jsstring :=
  match s with
  | c :: s' => if is_whitespace c then trimStart s' else s
  | [] => []
  end.

Definition trimEnd (s : jsstring) : jsstring := rev (trimStart (rev s)).

Definition trim (s : jsstring) : jsstring := trimEnd (trimStart s).

(** [s.replace(/c/g, by)] for a pattern of one literal character. *)
Fixpoint replace_all (c : N) (by_ : jsstring) (s : jsstring) : jsstring :=
  match s with
  | [] => []
  | d :: s' =>
      if d =? c then by_ ++ replace_all c by_ s' else d :: replace_all c by_ s'
  end.

Fixpoint startsWith (s prefix : jsstring) {struct prefix} : bool :=
  match prefix, s with
  | [] , _ => true
  | p :: prefix', c :: s' => (c =? p) && startsWith s' prefix'
  | _ :: _, [] => false
  end.

(** [s.slice(n)] for [0 <= n]. *)
Definition slice_from (n : nat) (s : jsstring) : jsstring := skipn n s.

(** [s.slice(0, -1)]: all but the last code unit; the empty string stays
    empty. *)
Definition slice_0_m1 (s : jsstring) : jsstring := removelast s.

(** Truthiness of a string: only the empty string is falsy. *)
Definition truthy (s : jsstring) : bool :=
  match s with [] => false | _ :: _ => true end.

End JS.
Import JS.

(** ** The two regular expressions of [safeEval] *)

Module Regex.

(** Canonicalize of the ECMAScript pattern semantics under the [i] flag
    without [u]: a character is compared through its upper-case form,
    except that a character at or above 128 is never taken to one below
    128.  On the code units below 128 upper-casing changes the letters
    [a]..[z] only; a code unit at or above 128 canonicalizes to one at or
    above 128, and is kept here, which gives the same comparison against a
    pattern that is all ASCII. *)
Definition canonicalize (c : N) : N :=
  if (0x61 <=? c) && (c <=? 0x7A) then c - 0x20 else c.

(** The literal [w] matches at the start of [s], ignoring case. *)
Fixpoint match_literal_i (w s : jsstring) : bool :=
  match w, s with
  | [], _ => true
  | p :: w', c :: s' =>
      (canonicalize c =? canonicalize p) && match_literal_i w' s'
  | _ :: _, [] => false
  end.

(** [/(w1|w2|...)/i.test(s)]: some alternative matches at some index. *)
Fixpoint test_alternation_i (alts : list jsstring) (s : jsstring) : bool :=
  existsb (fun w => match_literal_i w s) alts
  || match s with
     | [] => false
     | _ :: s' => test_alternation_i alts s'
     end.

(** [/^[class]*$/.test(s)]: every character of [s] is in the class. *)
Definition test_class_star (class : N -> bool) (s : jsstring) : bool :=
  forallb class s.

End Regex.

(** ** Numbers *)

Module Num.

Local Open Scope Z_scope.

(** [Number.EPSILON], 2^-52. *)
Definition EPSILON : float := 0x1p-52%float.

(** The literal [1e12]. *)
Definition TEN_12 : float := 0x1.d1a94a2p+39%float.

Definition isFinite (x : float) : bool := PrimFloat.is_finite x.

(** An integer as a float, rounded to nearest even when it needs more
    than 53 bits. *)
Definition of_Z (z : Z) : float :=
  SF2Prim (binary_normalize prec emax z 0 false).

(** [Math.floor]. *)
Definition Math_floor (x : float) : float :=
  match Prim2SF x with
  | S754_finite s m e =>
      if 0 <=? e then x
      else
        let q := Z.pos m / 2 ^ (- e) in
        if s then
          PrimFloat.opp (of_Z (if Z.pos m mod 2 ^ (- e) =? 0 then q else q + 1))
        else of_Z q
  | _ => x
  end.

(** [Math.round]: the integer closest to [x], the larger one on a tie;
    an integral [x], an infinity and NaN are returned as they are, and a
    negative [x] that rounds to zero gives [-0]. *)
Definition Math_round (x : float) : float :=
  match Prim2SF x with
  | S754_finite s m e =>
      if 0 <=? e then x
      else
        let half := 2 ^ (- e - 1) in
        let n := ((if s then - Z.pos m else Z.pos m) + half) / 2 ^ (- e) in
        if n =? 0 then (if s then neg_zero else zero) else
        if n <? 0 then PrimFloat.opp (of_Z (- n)) else of_Z n
  | _ => x
  end.

(** *** [Number::toString] (radix 10)

    For a finite [x > 0] the ECMAScript specification takes integers
    [n], [k], [s] with [10^(k-1) <= s < 10^k], [s * 10^(n-k)] a decimal
    that reads back as [x], and [k] as small as possible (the closest to
    [x] when several [s] do), then lays the [k] digits of [s] out
    according to [n]. *)

Definition digit_char (d : Z) : N := (0x30 + Z.to_N d)%N.

Fixpoint digits_from (fuel : nat) (z : Z) (acc : jsstring) : jsstring :=
  match fuel with
  | O => acc
  | S fuel' =>
      let acc' := digit_char (z mod 10) :: acc in
      if z <? 10 then acc' else digits_from fuel' (z / 10) acc'
  end.

(** The decimal digits of [z >= 0], most significant first. *)
Definition digits (z : Z) : jsstring :=
  digits_from (S (Z.to_nat (Z.log2 z))) z [].

(** Compare [a * 10^p] with [b * 2^q]. *)
Definition compare_scaled (a p b q : Z) : comparison :=
  (a * 10 ^ Z.max p 0 * 2 ^ Z.max (- q) 0
     ?= b * 2 ^ Z.max q 0 * 10 ^ Z.max (- p) 0).

(** The floor of [m * 2^e / 10^g]. *)
Definition floor_scaled (m e g : Z) : Z :=
  (m * 2 ^ Z.max e 0 * 10 ^ Z.max (- g) 0)
    / (2 ^ Z.max (- e) 0 * 10 ^ Z.max g 0).

Fixpoint lower_exponent (fuel : nat) (m e n : Z) : Z :=
  match fuel with
  | O => n
  | S fuel' =>
      match compare_scaled 1 (n - 1) m e with
      | Gt => lower_exponent fuel' m e (n - 1)
      | _ => n
      end
  end.

Fixpoint raise_exponent (fuel : nat) (m e n : Z) : Z :=
  match fuel with
  | O => n
  | S fuel' =>
      match compare_scaled 1 n m e with
      | Gt => n
      | _ => raise_exponent fuel' m e (n + 1)
      end
  end.

(** The [n] with [10^(n-1) <= m * 2^e < 10^n], from an estimate of the
    decimal logarithm that is corrected in both directions. *)
Definition decimal_exponent (m e : Z) : Z :=
  let estimate := (Z.log2 m + e) * 30103 / 100000 in
  raise_exponent 400 m e (lower_exponent 400 m e estimate).

(** [s * 10^g] reads back as [m * 2^e]: it lies between the midpoints
    to the neighbouring floats, a midpoint itself counting when [m] is
    even (ties go to the even mantissa). *)
Definition reads_back (m e s g : Z) : bool :=
  let low := if (m =? 2 ^ 52) && (-1074 <? e) then 4 * m - 1 else 4 * m - 2 in
  let high := 4 * m + 2 in
  match compare_scaled s g low (e - 2) with
  | Gt => true
  | Eq => Z.even m
  | Lt => false
  end
  && match compare_scaled s g high (e - 2) with
     | Lt => true
     | Eq => Z.even m
     | Gt => false
     end.

(** The candidate with [k] digits, if one reads back. *)
Definition candidate (m e n k : Z) : option Z :=
  let g := n - k in
  let lo := floor_scaled m e g in
  let hi := lo + 1 in
  match reads_back m e lo g, reads_back m e hi g with
  | true, false => Some lo
  | false, true => Some hi
  | true, true =>
      match compare_scaled (2 * lo + 1) g (2 * m) e with
      | Gt => Some lo
      | Lt => Some hi
      | Eq => Some (if Z.even lo then lo else hi)
      end
  | false, false => None
  end.

Fixpoint shortest_from (fuel : nat) (m e n k : Z) : Z * Z :=
  match fuel with
  | O => (floor_scaled m e (n - k), n)
  | S fuel' =>
      match candidate m e n k with
      | Some s => if s =? 10 ^ k then (10 ^ (k - 1), n + 1) else (s, n)
      | None => shortest_from fuel' m e n (k + 1)
      end
  end.

(** The digits [s] and the exponent [n] of [m * 2^e]; seventeen digits
    always suffice for a binary64 float. *)
Definition shortest (m e : Z) : Z * Z :=
  shortest_from 17 m e (decimal_exponent m e) 1.

Definition CH_0 : N := 0x30.
Definition CH_DOT : N := 0x2E.
Definition CH_MINUS : N := 0x2D.
Definition CH_PLUS : N := 0x2B.
Definition CH_e : N := 0x65.

(** Steps 6 to 10 of [Number::toString]. *)
Definition layout (ds : jsstring) (n : Z) : jsstring :=
  let k := Z.of_nat (List.length ds) in
  if (k <=? n) && (n <=? 21) then
    ds ++ repeat CH_0 (Z.to_nat (n - k))
  else if (0 <? n) && (n <=? 21) then
    firstn (Z.to_nat n) ds ++ CH_DOT :: skipn (Z.to_nat n) ds
  else if (-6 <? n) && (n <=? 0) then
    CH_0 :: CH_DOT :: repeat CH_0 (Z.to_nat (- n)) ++ ds
  else
    let exponent :=
      CH_e :: (if n - 1 <? 0 then CH_MINUS else CH_PLUS)
           :: digits (Z.abs (n - 1)) in
    match ds with
    | [d] => d :: exponent
    | d :: ds' => d :: CH_DOT :: ds' ++ exponent
    | [] => exponent
    end.

Definition Number_toString (x : float) : jsstring :=
  if is_nan x then js "NaN"
  else if is_infinity x then
    (if (x <? 0)%float then js "-Infinity" else js "Infinity")
  else
    match Prim2SF x with
    | S754_finite sign m e =>
        let '(s, n) := shortest (Z.pos m) e in
        (if sign then [CH_MINUS] else []) ++ layout (digits s) n
    | S754_zero _ => js "0"
    | _ => js "NaN"
    end.

End Num.

(** ** The expression evaluator: [safeEval] *)

(** The error kinds of the specification.  [safeEval] throws three errors
    of its own, told apart by their message; whatever the engine throws
    passes through [safeEval] unchanged and is an [EvaluationFailure].  No
    statement of the source raises an [EmptyExpression]. *)
Inductive ExpressionErrorKind : Type :=
| EmptyExpression
| UnsupportedConstruct
| InvalidCharacters
| EvaluationFailure
| NonFinite.

(** A thrown [Error]: handlers read its [message]. *)
Record JsError : Type := Error { kind : ExpressionErrorKind; message : jsstring }.

Inductive EvaluationOutcome : Type :=
| Ok (value : jsstring)
| Rejected (reason : JsError).

(** What [math.evaluate] hands back: a number, or a value of another type,
    kept as the text [String(value)] gives for it. *)
Inductive JsValue : Type :=
| VNumber (x : float)
| VOther (text : jsstring).

Inductive EngineResult : Type :=
| Returns (v : JsValue)
| Raises (message : jsstring).

Definition Engine : Type := jsstring -> EngineResult.

Definition MULTIPLICATION_SIGN : N := 0xD7.
Definition DIVISION_SIGN : N := 0xF7.
Definition EM_DASH : N := 0x2014.
Definition MINUS_SIGN : N := 0x2212.
Definition COMMA : N := 0x2C.

(** The first statements of [safeEval]: [String(expr || "").trim()], then
    the five [replace] calls in their order. *)
Definition normalize (expr : jsstring) : jsstring :=
  replace_all COMMA []
    (replace_all MINUS_SIGN (js "-")
       (replace_all EM_DASH (js "-")
          (replace_all DIVISION_SIGN (js "/")
             (replace_all MULTIPLICATION_SIGN (js "*") (trim expr))))).

(** The alternatives of the [blocked] pattern, in its order. *)
Definition denylist : list jsstring :=
  List.map js
    [ "import"; "createUnit"; "evaluate"; "parse"; "simplify"; "derivative";
      "compile"; "help"; "unit"; "format"; "typed"; "reviver"; "json";
      "chain"; "matrix"; "ones"; "zeros"; "range"; "index"; "subset";
      "concat"; "resize" ]%string.

Definition blocked_test (s : jsstring) : bool :=
  Regex.test_alternation_i denylist s.

(** The class [[0-9+\-*/().\s^%piePIE]]. *)
Definition allowed_char (c : N) : bool :=
  ((0x30 <=? c) && (c <=? 0x39))
  || (c =? 0x2B) || (c =? 0x2D) || (c =? 0x2A) || (c =? 0x2F)
  || (c =? 0x28) || (c =? 0x29) || (c =? 0x2E)
  || is_whitespace c
  || (c =? 0x5E) || (c =? 0x25)
  || (c =? 0x70) || (c =? 0x69) || (c =? 0x65)
  || (c =? 0x50) || (c =? 0x49) || (c =? 0x45).

Definition allowed_test (s : jsstring) : bool :=
  Regex.test_class_star allowed_char s.

Definition unsupported_expression : JsError :=
  Error UnsupportedConstruct (js "Unsupported expression.").
Definition invalid_characters : JsError :=
  Error InvalidCharacters (js "Invalid characters.").
Definition result_not_finite : JsError :=
  Error NonFinite (js "Result is not finite.").

(** [Math.round((result + Number.EPSILON) * 1e12) / 1e12] *)
Definition round12 (result : float) : float :=
  (Num.Math_round ((result + Num.EPSILON) * Num.TEN_12) / Num.TEN_12)%float.

(** The statements of [safeEval] after [math.evaluate] has returned. *)
Definition postprocess (r : EngineResult) : EvaluationOutcome :=
  match r with
  | Raises msg => Rejected (Error EvaluationFailure msg)
  | Returns (VNumber result) =>
      if negb (Num.isFinite result) then Rejected result_not_finite
      else Ok (Num.Number_toString (round12 result))
  | Returns (VOther text) => Ok text
  end.

Section Evaluator.

(** [math.evaluate] of the [mathjs] instance. *)
Variable math_evaluate : Engine.

Definition safeEval (expr : jsstring) : EvaluationOutcome :=
  let s := normalize expr in
  if blocked_test s then Rejected unsupported_expression
  else if negb (allowed_test s) then Rejected invalid_characters
  else postprocess (math_evaluate s).

End Evaluator.

(** ** The calculator sessions *)

(** The session object [{ expr, result, msgId }]; [msgId] is [null] until a
    keypad message has been sent. *)
Record Session : Type := { expr : jsstring; result : jsstring; msgId : option Z }.

Definition fresh_session : Session := {| expr := []; result := []; msgId := None |}.

(** [renderUI]: a blank stands in for an empty field. *)
Definition renderUI (expr result : jsstring) : jsstring :=
  let e := if truthy expr then expr else js " " in
  let r := if truthy result then result else js " " in
  [0xD83E; 0xDDEE] ++ js " BIKA Calculator" ++ [0x0A; 0x0A]
    ++ js "Expr: " ++ e ++ [0x0A]
    ++ js "Result: " ++ r ++ [0x0A; 0x0A]
    ++ js "Tip: Inline " ++ [0x2192] ++ js " @YourBot 12*(3+4)".

(** The answers of the messaging platform during one handler run:
    [editMessageText] succeeds or throws, a [reply] returns the id of the
    message it sent or throws; the reply of the [catch] block is a call of
    its own; [answerCbQuery] succeeds or throws.  The keyboard [kb()] sent
    along with the text is a constant and is left out. *)
Record Telegram : Type := {
  editMessageText : Z -> Z -> jsstring -> bool;
  reply : jsstring -> option Z;
  reply_in_catch : jsstring -> option Z;
  answerCbQuery : bool
}.

(** A handler completes, or its promise is rejected. *)
Inductive Handled : Type := Completed | Threw.

(** [return ctx.answerCbQuery()]: the handler's promise settles as that of
    the call. *)
Definition answered (tg : Telegram) : Handled :=
  if answerCbQuery tg then Completed else Threw.

Definition set_msgId (s : Session) (id : Z) : Session :=
  {| expr := expr s; result := result s; msgId := Some id |}.

(** The [state] Map. *)
Abbreviation State := (gmap Z Session).

(** [bot.command("calculator")] ([bot.start] in the older variants): the new
    session object is put in the map, then receives the id of the keypad
    message once that is sent.  The bookkeeping of users and groups
    ([trackContext]) does not touch the sessions and is left out, here and in
    the button handler. *)
Definition calculator_command (tg : Telegram) (chatId : Z) (state : State)
  : State * Handled :=
  let s := fresh_session in
  let state := <[chatId := s]> state in
  match reply tg (renderUI [] []) with
  | Some id => (<[chatId := set_msgId s id]> state, Completed)
  | None => (state, Threw)
  end.

Section Keypad.

Variable math_evaluate : Engine.

(** The [if] chain on [key] of the button handler. *)
Definition apply_key (key : jsstring) (s : Session) : Session :=
  if decide (key = js "C") then
    {| expr := []; result := []; msgId := msgId s |}
  else if decide (key = js "BS") then
    {| expr := slice_0_m1 (expr s); result := result s; msgId := msgId s |}
  else if decide (key = js "=") then
    {| expr := expr s;
       result :=
         if truthy (expr s) then
           match safeEval math_evaluate (expr s) with
           | Ok value => value
           | Rejected e => js "Error: " ++ message e
           end
         else [];
       msgId := msgId s |}
  else
    {| expr := expr s ++ key; result := result s; msgId := msgId s |}.

(** A message id is truthy unless it is [null] or [0]. *)
Definition current_message (s : Session) : option Z :=
  match msgId s with
  | Some id => if decide (id = 0%Z) then None else Some id
  | None => None
  end.

(** The [try]/[catch] that shows the keypad again: edit the message in
    place, send a new one when there is none or when the [try] block
    throws. *)
Definition deliver (tg : Telegram) (chatId : Z) (s : Session)
  : Session * Handled :=
  let text := renderUI (expr s) (result s) in
  let in_catch :=
    match reply_in_catch tg text with
    | Some id => (set_msgId s id, Completed)
    | None => (s, Threw)
    end in
  match current_message s with
  | Some id => if editMessageText tg chatId id text then (s, Completed) else in_catch
  | None =>
      match reply tg text with
      | Some id => (set_msgId s id, Completed)
      | None => in_catch
      end
  end.

(** [bot.on("callback_query")].  [data] is [ctx.callbackQuery.data || ""].
    The session object is shared with the map, so every assignment to it
    shows in the map whether or not the handler completes.  Both exits are
    [return ctx.answerCbQuery()]; the second one is reached only when the
    keypad has been shown again. *)
Definition callback_query (tg : Telegram) (chatId : Z) (data : jsstring)
    (state : State) : State * Handled :=
  let s := default fresh_session (state !! chatId) in
  let state := <[chatId := s]> state in
  if negb (startsWith data (js "k:")) then (state, answered tg)
  else
    let key := slice_from 2 data in
    let '(s', h) := deliver tg chatId (apply_key key s) in
    (<[chatId := s']> state,
     match h with
     | Completed => answered tg
     | Threw => Threw
     end).

(** A run of button presses, each with the platform's answers. *)
Fixpoint press_all (chatId : Z) (events : list (Telegram * jsstring))
    (state : State) : State :=
  match events with
  | [] => state
  | (tg, data) :: events' =>
      press_all chatId events' (fst (callback_query tg chatId data state))
  end.

End Keypad.

(** ** An arithmetic engine *)

Module Arith.

Local Open Scope Z_scope.

(** Tokens of an arithmetic text. *)
Inductive token : Type :=
| TNumber (x : float)
| TIdent (name : jsstring)
| TSymbol (c : N).

Inductive res (A : Type) : Type :=
| Val (a : A)
| Err (message : jsstring).
Arguments Val {A} a.
Arguments Err {A} message.

Definition bind {A B : Type} (r : res A) (f : A -> res B) : res B :=
  match r with
  | Val a => f a
  | Err m => Err m
  end.

Notation "'let*' p ':=' r 'in' k" := (bind r (fun p => k))
  (at level 10, p pattern, r at level 200, k at level 200).

Definition is_digit (c : N) : bool := ((0x30 <=? c) && (c <=? 0x39))%N.

Definition is_letter (c : N) : bool :=
  (((0x41 <=? c) && (c <=? 0x5A)) || ((0x61 <=? c) && (c <=? 0x7A)))%N.

Definition is_symbol (c : N) : bool :=
  ((c =? 0x2B) || (c =? 0x2D) || (c =? 0x2A) || (c =? 0x2F) || (c =? 0x5E)
   || (c =? 0x25) || (c =? 0x28) || (c =? 0x29))%N.

Fixpoint span (p : N -> bool) (s : jsstring) : jsstring * jsstring :=
  match s with
  | c :: s' =>
      if p c then let '(taken, rest) := span p s' in (c :: taken, rest)
      else ([], s)
  | [] => ([], [])
  end.

Definition digits_value (ds : jsstring) : Z :=
  fold_left (fun acc c => 10 * acc + (Z.of_N c - 0x30)) ds 0.

(** The binary64 number nearest to [M * 10^p], for [0 <= M]. *)
Definition decimal (M p : Z) : float :=
  if M =? 0 then zero
  else if 0 <=? p then Num.of_Z (M * 10 ^ p)
  else SF2Prim (SFdiv prec emax (S754_finite false (Z.to_pos M) 0)
                                (S754_finite false (Z.to_pos (10 ^ (- p))) 0)).

(** The exponent part of a literal: [e] or [E], an optional sign and at
    least one digit.  Without a digit there is no exponent part. *)
Definition lex_exponent (s : jsstring) : Z * jsstring :=
  match s with
  | c :: s1 =>
      if ((c =? 0x65) || (c =? 0x45))%N then
        let '(sign, s2) :=
          match s1 with
          | d :: s2 =>
              if (d =? 0x2D)%N then (-1, s2)
              else if (d =? 0x2B)%N then (1, s2) else (1, s1)
          | [] => (1, s1)
          end in
        match span is_digit s2 with
        | ([], _) => (0, s)
        | (ds, rest) => (sign * digits_value ds, rest)
        end
      else (0, s)
  | [] => (0, s)
  end.

(** A literal: digits with an optional fraction, or a fraction alone. *)
Definition lex_number (s : jsstring) : option (float * jsstring) :=
  let '(int_part, s1) := span is_digit s in
  let '(frac_part, s2) :=
    match s1 with
    | c :: s1' =>
        if (c =? 0x2E)%N then
          match span is_digit s1' with
          | ([], _) => ([], s1)
          | (ds, rest) => (ds, rest)
          end
        else ([], s1)
    | [] => ([], s1)
    end in
  match int_part ++ frac_part with
  | [] => None
  | mantissa =>
      let '(e, s3) := lex_exponent s2 in
      Some (decimal (digits_value mantissa) (e - Z.of_nat (List.length frac_part)), s3)
  end.

Fixpoint tokenize (fuel : nat) (s : jsstring) : res (list token) :=
  match fuel with
  | O => Val []
  | S fuel' =>
      match s with
      | [] => Val []
      | c :: s' =>
          if is_whitespace c then tokenize fuel' s'
          else if is_symbol c then
            let* ts := tokenize fuel' s' in Val (TSymbol c :: ts)
          else if is_letter c then
            let '(name, rest) := span is_letter s in
            let* ts := tokenize fuel' rest in Val (TIdent name :: ts)
          else
            match lex_number s with
            | Some (x, rest) => let* ts := tokenize fuel' rest in Val (TNumber x :: ts)
            | None => Err (js "Syntax error")
            end
      end
  end.

Definition PI : float := 0x1.921fb54442d18p+1%float.
Definition E : float := 0x1.5bf0a8b145769p+1%float.

Definition constant (name : jsstring) : res float :=
  if decide (name = js "pi") then Val PI
  else if decide (name = js "PI") then Val PI
  else if decide (name = js "e") then Val E
  else if decide (name = js "E") then Val E
  else Err (js "Undefined symbol " ++ name).

(** [x % y]: the remainder of the floored division. *)
Definition modulo (x y : float) : float :=
  if (y =? 0)%float then x else (x - y * Num.Math_floor (x / y))%float.

(** [x ^ y] for an integral [y]. *)
Definition power (x y : float) : res float :=
  match Prim2SF y with
  | S754_zero _ => Val one
  | S754_finite s m e =>
      if (0 <=? e) || (Z.pos m mod 2 ^ (- e) =? 0) then
        let n := if 0 <=? e then Z.pos m * 2 ^ e else Z.pos m / 2 ^ (- e) in
        let p := Pos.iter (PrimFloat.mul x) one (Z.to_pos n) in
        Val (if s then (one / p)%float else p)
      else Err (js "Unsupported exponent")
  | _ => Err (js "Unsupported exponent")
  end.

Definition syntax_error {A : Type} : res A := Err (js "Syntax error").

Fixpoint addsub (fuel : nat) (ts : list token) : res (float * list token) :=
  match fuel with
  | O => syntax_error
  | S f => let* (x, r) := muldiv f ts in addsub_rest f x r
  end
with addsub_rest (fuel : nat) (acc : float) (ts : list token)
  : res (float * list token) :=
  match fuel with
  | O => syntax_error
  | S f =>
      match ts with
      | TSymbol c :: r =>
          if (c =? 0x2B)%N then
            let* (y, r') := muldiv f r in addsub_rest f (acc + y)%float r'
          else if (c =? 0x2D)%N then
            let* (y, r') := muldiv f r in addsub_rest f (acc - y)%float r'
          else Val (acc, ts)
      | _ => Val (acc, ts)
      end
  end
with muldiv (fuel : nat) (ts : list token) : res (float * list token) :=
  match fuel with
  | O => syntax_error
  | S f => let* (x, r) := unary f ts in muldiv_rest f x r
  end
with muldiv_rest (fuel : nat) (acc : float) (ts : list token)
  : res (float * list token) :=
  match fuel with
  | O => syntax_error
  | S f =>
      match ts with
      | TSymbol c :: r =>
          if (c =? 0x2A)%N then
            let* (y, r') := unary f r in muldiv_rest f (acc * y)%float r'
          else if (c =? 0x2F)%N then
            let* (y, r') := unary f r in muldiv_rest f (acc / y)%float r'
          else if (c =? 0x25)%N then
            let* (y, r') := unary f r in muldiv_rest f (modulo acc y) r'
          else Val (acc, ts)
      | _ => Val (acc, ts)
      end
  end
with unary (fuel : nat) (ts : list token) : res (float * list token) :=
  match fuel with
  | O => syntax_error
  | S f =>
      match ts with
      | TSymbol c :: r =>
          if (c =? 0x2D)%N then let* (x, r') := unary f r in Val ((- x)%float, r')
          else if (c =? 0x2B)%N then unary f r
          else let* (x, r') := atom f ts in pow_rest f x r'
      | _ => let* (x, r') := atom f ts in pow_rest f x r'
      end
  end
with pow_rest (fuel : nat) (acc : float) (ts : list token)
  : res (float * list token) :=
  match fuel with
  | O => syntax_error
  | S f =>
      match ts with
      | TSymbol c :: r =>
          if (c =? 0x5E)%N then
            let* (y, r') := exponent f r in
            let* z := power acc y in
            pow_rest f z r'
          else Val (acc, ts)
      | _ => Val (acc, ts)
      end
  end
with exponent (fuel : nat) (ts : list token) : res (float * list token) :=
  match fuel with
  | O => syntax_error
  | S f =>
      match ts with
      | TSymbol c :: r =>
          if (c =? 0x2D)%N then let* (x, r') := exponent f r in Val ((- x)%float, r')
          else if (c =? 0x2B)%N then exponent f r
          else atom f ts
      | _ => atom f ts
      end
  end
with atom (fuel : nat) (ts : list token) : res (float * list token) :=
  match fuel with
  | O => syntax_error
  | S f =>
      match ts with
      | TNumber x :: r => Val (x, r)
      | TIdent name :: r => let* x := constant name in Val (x, r)
      | TSymbol c :: r =>
          if (c =? 0x28)%N then
            let* (x, r') := addsub f r in
            match r' with
            | TSymbol d :: r'' => if (d =? 0x29)%N then Val (x, r'') else syntax_error
            | _ => syntax_error
            end
          else syntax_error
      | [] => syntax_error
      end
  end.

(** Modelled from the spec: the engine behind [math.evaluate] is the
    [mathjs] package, which is not part of the repository.  This is the
    "standard arithmetic-expression evaluator supporting [+ - * / ^ %],
    parentheses, unary minus, and the constants π and e, with conventional
    operator precedence and left-to-right associativity for same-precedence
    operators" of the specification, over binary64 numbers.  Decimal
    literals may carry a fraction and an exponent part.  The empty text
    has no value and gives [undefined]; a power is computed for integral
    exponents only (by repeated multiplication), any other exponent raises. *)
Definition evaluate : Engine := fun s =>
  match tokenize (S (List.length s)) s with
  | Err m => Raises m
  | Val [] => Returns (VOther (js "undefined"))
  | Val ts =>
      match addsub (16 + 8 * List.length ts) ts with
      | Val (x, []) => Returns (VNumber x)
      | Val (_, _ :: _) => Raises (js "Syntax error")
      | Err m => Raises m
      end
  end.

End Arith.

(** ** Vocabulary of the statements *)

(** ASCII lower-casing, for "contains, ignoring case". *)
Definition lower (c : N) : N :=
  if (0x41 <=? c) && (c <=? 0x5A) then c + 0x20 else c.

Definition same_ignoring_case (a b : jsstring) : Prop :=
  List.map lower a = List.map lower b.

(** [w] occurs in [s], ignoring case. *)
Definition contains_ignoring_case (w s : jsstring) : Prop :=
  exists pre mid post, s = pre ++ mid ++ post /\ same_ignoring_case mid w.

(** [s] holds a character outside the allowlist. *)
Definition has_disallowed_char (s : jsstring) : Prop :=
  exists c, In c s /\ allowed_char c = false.

(** [s] holds one of the denylisted identifiers, ignoring case. *)
Definition has_denylisted (s : jsstring) : Prop :=
  exists w, In w denylist /\ contains_ignoring_case w s.

Definition rejection_kind (o : EvaluationOutcome) : option ExpressionErrorKind :=
  match o with
  | Ok _ => None
  | Rejected e => Some (kind e)
  end.

(** The characters [Number::toString] writes for a finite number. *)
Definition numeric_alphabet : jsstring := js "0123456789.-+e".

Definition numeric_char (c : N) : bool := existsb (N.eqb c) numeric_alphabet.

(** The pattern character [p] can match some numeric character. *)
Definition matches_numeric (p : N) : bool :=
  existsb (N.eqb (Regex.canonicalize p))
          (List.map Regex.canonicalize numeric_alphabet).

(** The callback data of a keypad button: [k:] and the key. *)
Definition button (key : string) : jsstring := js "k:" ++ js key.

(** The text [12×(3+4)], with the multiplication sign U+00D7. *)
Definition twelve_times_sum : jsstring :=
  js "12" ++ [MULTIPLICATION_SIGN] ++ js "(3+4)".

(** The session after a run of keys, as far as the [if] chain goes. *)
Definition apply_keys (eng : Engine) (keys : list jsstring) (s : Session) : Session :=
  fold_left (fun s key => apply_key eng key s) keys s.

(** Two session objects with the same expression and result. *)
Definition same_fields (s t : Session) : Prop :=
  expr s = expr t /\ result s = result t.

Abbreviation all_numeric := (Forall (fun c => numeric_char c = true)).

(** The decimal literal [1e300] as a binary64 number. *)
Definition TEN_300 : float := 0x1.7e43c8800759cp+996%float.

(** A platform on which every call succeeds, and one on which every call
    throws. *)
Definition reliable_telegram : Telegram :=
  {| editMessageText := fun _ _ _ => true;
     reply := fun _ => Some 100%Z;
     reply_in_catch := fun _ => Some 101%Z;
     answerCbQuery := true |}.

Definition failing_telegram : Telegram :=
  {| editMessageText := fun _ _ _ => false;
     reply := fun _ => None;
     reply_in_catch := fun _ => None;
     answerCbQuery := false |}.

(** The presses [1], [2], [+], [3], [=], the keypad being shown again with
    and without success along the way. *)
Definition example_presses : list (Telegram * jsstring) :=
  [ (reliable_telegram, button "1"); (failing_telegram, button "2");
    (reliable_telegram, button "+"); (failing_telegram, button "3");
    (reliable_telegram, button "=") ].

(** A session in use. *)
Definition used_session : Session :=
  {| expr := js "12+3"; result := js "15"; msgId := Some 5%Z |}.

(** ** The rest of the bot *)

(** *** More of the string library *)

(** [parts.join(sep)] *)
Fixpoint join (sep : jsstring) (parts : list jsstring) : jsstring :=
  match parts with
  | [] => []
  | p :: rest =>
      match rest with
      | [] => p
      | _ :: _ => p ++ sep ++ join sep rest
      end
  end.

(** [s.split(c)] for a separator of one character: the pieces between the
    separators, the empty ones included. *)
Fixpoint split_on (c : N) (s : jsstring) : list jsstring :=
  match s with
  | [] => [[]]
  | d :: s' =>
      if d =? c then [] :: split_on c s'
      else
        match split_on c s' with
        | p :: ps => (d :: p) :: ps
        | [] => [[d]]
        end
  end.

(** [s.replace(pattern, by)] for a string pattern: the first occurrence. *)
Fixpoint replace_first (pattern by_ s : jsstring) : jsstring :=
  if startsWith s pattern then by_ ++ skipn (List.length pattern) s
  else
    match s with
    | [] => []
    | c :: s' => c :: replace_first pattern by_ s'
    end.

(** The text of an integer-valued number below 10^21 in magnitude: its
    decimal digits, after a minus sign when it is negative. *)
Definition integer_text (z : Z) : jsstring :=
  if (z <? 0)%Z then Num.CH_MINUS :: Num.digits (- z) else Num.digits z.

Definition SPACE : N := 0x20.
Definition LINE_FEED : N := 0x0A.

(** *** [formatUptime] *)

(** The four numbers of [formatUptime].  [ms] is a whole number of
    milliseconds (a difference of two [Date.now()]) below [2 ^ 53] in
    magnitude: up to there a binary64 number holds every whole number, the
    rounded quotient [a / b] of two of them by a divisor below [2 ^ 53 / a]
    has the floor of the exact quotient, and [%=] is the exact remainder
    with the sign of the dividend.  Beyond [2 ^ 53] the code computes on
    rounded numbers and this definition does not apply. *)
Definition uptime_fields (ms : Z) : Z * Z * Z * Z :=
  let sec := (ms / 1000)%Z in
  let days := (sec / 86400)%Z in
  let sec := Z.rem sec 86400 in
  let hours := (sec / 3600)%Z in
  let sec := Z.rem sec 3600 in
  let mins := (sec / 60)%Z in
  let sec := Z.rem sec 60 in
  (days, hours, mins, sec).

Definition push_if (condition : bool) (part : jsstring) (parts : list jsstring)
  : list jsstring :=
  if condition then parts ++ [part] else parts.

Definition formatUptime (ms : Z) : jsstring :=
  let '(days, hours, mins, sec) := uptime_fields ms in
  let parts := [] in
  let parts := push_if (negb (days =? 0)%Z) (integer_text days ++ js "d") parts in
  let parts := push_if (negb (hours =? 0)%Z) (integer_text hours ++ js "h") parts in
  let parts := push_if (negb (mins =? 0)%Z) (integer_text mins ++ js "m") parts in
  let parts := parts ++ [integer_text sec ++ js "s"] in
  join (js " ") parts.

(** *** The keypad *)

(** A callback button: its label and its callback data. *)
Record Button : Type := { label : jsstring; data : jsstring }.

Definition callback (text : jsstring) (data : string) : Button :=
  {| label := text; data := js data |}.

(** [kb()]: the rows of the inline keyboard. *)
Definition kb : list (list Button) :=
  [ [ callback (js "7") "k:7"; callback (js "8") "k:8";
      callback (js "9") "k:9"; callback [DIVISION_SIGN] "k:/" ];
    [ callback (js "4") "k:4"; callback (js "5") "k:5";
      callback (js "6") "k:6"; callback [MULTIPLICATION_SIGN] "k:*" ];
    [ callback (js "1") "k:1"; callback (js "2") "k:2";
      callback (js "3") "k:3"; callback (js "-") "k:-" ];
    [ callback (js "0") "k:0"; callback (js ".") "k:.";
      callback (js "(") "k:("; callback (js ")") "k:)" ];
    [ callback (js "C") "k:C"; callback [0x232B] "k:BS";
      callback (js "+") "k:+"; callback (js "=") "k:=" ] ].

(** *** Group chats: is the bot an administrator? *)

(** [ctx.chat.type] *)
Inductive ChatType : Type := Private | Group | Supergroup | Channel.

Record Chat : Type := { chat_id : Z; chat_type : ChatType }.

Definition is_group_chat (t : ChatType) : bool :=
  match t with
  | Group | Supergroup => true
  | Private | Channel => false
  end.

(** The [adminCache] Map. *)
Abbreviation AdminCache := (gmap Z bool).

(** [isBotAdminInChat]: [getChatMember] gives the status of the bot in a
    chat, or throws ([None]). *)
Definition isBotAdminInChat (getChatMember : Z -> option jsstring)
    (chat : option Chat) (adminCache : AdminCache) : bool * AdminCache :=
  match chat with
  | None => (false, adminCache)
  | Some chat =>
      if negb (is_group_chat (chat_type chat)) then (false, adminCache)
      else
        let chatId := chat_id chat in
        match adminCache !! chatId with
        | Some cached => (cached, adminCache)
        | None =>
            match getChatMember chatId with
            | Some status =>
                let isAdmin :=
                  bool_decide (status = js "administrator")
                  || bool_decide (status = js "creator") in
                (isAdmin, <[chatId := isAdmin]> adminCache)
            | None => (false, <[chatId := false]> adminCache)
            end
        end
  end.

(** [bot.on("my_chat_member")], as far as the cache goes.  [status] is
    [ctx.myChatMember?.new_chat_member?.status]; the update of the group
    record in the database succeeds or throws, and the cache entry is
    deleted after it, inside the same [try]. *)
Definition my_chat_member (update_ok : bool) (chat : option Chat)
    (status : option jsstring) (adminCache : AdminCache) : AdminCache :=
  match chat, status with
  | Some chat, Some status =>
      if negb (is_group_chat (chat_type chat)) then adminCache
      else if negb (truthy status) then adminCache
      else if bool_decide (status = js "left") || bool_decide (status = js "kicked")
      then (if update_ok then delete (chat_id chat) adminCache else adminCache)
      else adminCache
  | _, _ => adminCache
  end.

(** *** Plain text messages and [/calc] *)

(** [text.replace(/\*/g, "×").replace(/\//g, "÷")] *)
Definition prettyExpr (text : jsstring) : jsstring :=
  replace_all 0x2F [DIVISION_SIGN] (replace_all 0x2A [MULTIPLICATION_SIGN] text).

Definition ABACUS : jsstring := [0xD83E; 0xDDEE].
Definition CROSS_MARK : jsstring := [0x274C].

(** The reply with a result, [🧮 ${input}\n= ${result}], and the reply
    with an error, [❌ ${e.message}]. *)
Definition result_reply (input result : jsstring) : jsstring :=
  ABACUS ++ js " " ++ input ++ [LINE_FEED] ++ js "= " ++ result.

Definition error_reply (e : JsError) : jsstring :=
  CROSS_MARK ++ js " " ++ message e.

(** [bot.on("text")] of [index.js]: the reply it sends, if any, and the
    admin cache afterwards. *)
Definition on_text (eng : Engine) (getChatMember : Z -> option jsstring)
    (chat : Chat) (message_text : jsstring) (adminCache : AdminCache)
  : option jsstring * AdminCache :=
  let text := trim message_text in
  if startsWith text (js "/") then (None, adminCache)
  else if is_group_chat (chat_type chat) then
    let '(isAdmin, adminCache) :=
      isBotAdminInChat getChatMember (Some chat) adminCache in
    if negb isAdmin then (None, adminCache)
    else
      match safeEval eng text with
      | Ok result => (Some (prettyExpr text ++ js " = " ++ result), adminCache)
      | Rejected _ => (None, adminCache)
      end
  else
    match chat_type chat with
    | Private =>
        match safeEval eng text with
        | Ok result => (Some (result_reply text result), adminCache)
        | Rejected e => (Some (error_reply e), adminCache)
        end
    | _ => (None, adminCache)
    end.

(** [bot.command("calc")]: the reply it sends. *)
Definition calc_command (eng : Engine) (message_text : jsstring) : jsstring :=
  let input := trim (replace_first (js "/calc") [] message_text) in
  if negb (truthy input) then js "Usage: /calc 12*(3+4)"
  else
    match safeEval eng input with
    | Ok result => result_reply input result
    | Rejected e => error_reply e
    end.

(** *** [/broadcast] *)

(** [!OWNER_ID || ctx.from.id !== OWNER_ID], negated.  An owner id that is
    not set is [0]. *)
Definition is_owner (OWNER_ID from_id : Z) : bool :=
  negb (OWNER_ID =? 0)%Z && (from_id =? OWNER_ID)%Z.

(** [ctx.message.text.split(" ").slice(1).join(" ").trim()] *)
Definition broadcast_args (message_text : jsstring) : jsstring :=
  trim (join [SPACE] (skipn 1 (split_on SPACE message_text))).

(** One of the two [for] loops: [send] succeeds or throws for a
    recipient; the counters [ok] and [fail]. *)
Fixpoint fan_out (send : Z -> bool) (recipients : list Z) (ok fail : Z) : Z * Z :=
  match recipients with
  | [] => (ok, fail)
  | r :: rest =>
      if send r then fan_out send rest (ok + 1)%Z fail
      else fan_out send rest ok (fail + 1)%Z
  end.

Definition broadcast_report (userOk userFail groupOk groupFail : Z) : jsstring :=
  [0x2705] ++ js " Broadcast finished." ++ [LINE_FEED; LINE_FEED]
    ++ [0xD83D; 0xDC64] ++ js " Users: " ++ integer_text userOk ++ js " sent, "
    ++ integer_text userFail ++ js " failed." ++ [LINE_FEED]
    ++ [0xD83D; 0xDC65] ++ js " Groups: " ++ integer_text groupOk ++ js " sent, "
    ++ integer_text groupFail ++ js " failed.".

Definition broadcast_message (args : jsstring) : jsstring :=
  [0xD83D; 0xDCE2] ++ js " [BIKA Calculator Broadcast]"
    ++ [LINE_FEED; LINE_FEED] ++ args.

(** [bot.command("broadcast")]: the recipients a message was sent to, in
    order, with the message, and the reply to the caller.  [users] and
    [groups] are the ids the two queries return; [send id msg] succeeds or
    throws. *)
Definition broadcast_command (OWNER_ID from_id : Z) (message_text : jsstring)
    (users groups : list Z) (send : Z -> jsstring -> bool)
  : list (Z * jsstring) * jsstring :=
  if negb (is_owner OWNER_ID from_id) then
    ([], CROSS_MARK ++ js " Owner only command.")
  else
    let args := broadcast_args message_text in
    if negb (truthy args) then ([], js "Usage: /broadcast Your message here")
    else
      let msg := broadcast_message args in
      let '(userOk, userFail) := fan_out (fun u => send u msg) users 0 0 in
      let '(groupOk, groupFail) := fan_out (fun g => send g msg) groups 0 0 in
      (List.map (fun r => (r, msg)) (users ++ groups),
       broadcast_report userOk userFail groupOk groupFail).

(** *** The older variant ([src/unnamed/part_000]): users and groups in memory *)

(** [users.add(x)] on a Set, kept in insertion order. *)
Definition set_add (x : Z) (set : list Z) : list Z :=
  if existsb (Z.eqb x) set then set else set ++ [x].

(** The value of the [groups] Map: [{ title, type }]. *)
Record GroupInfo : Type := { title : jsstring; type : ChatType }.

(** [groups.set(k, v)] on a Map, kept in insertion order: a key that is
    present keeps its place. *)
Fixpoint map_set (k : Z) (v : GroupInfo) (m : list (Z * GroupInfo))
  : list (Z * GroupInfo) :=
  match m with
  | [] => [(k, v)]
  | (k', v') :: m' =>
      if (k =? k')%Z then (k, v) :: m' else (k', v') :: map_set k v m'
  end.

(** What [trackContext] reads of [ctx]: [ctx.from.id], [ctx.chat] and
    [ctx.chat.title]. *)
Record Context : Type := {
  ctx_from : option Z;
  ctx_chat : option Chat;
  ctx_title : option jsstring
}.

(** [trackContext] of the older variant, on the [users] Set and the
    [groups] Map. *)
Definition trackContext (ctx : Context) (st : list Z * list (Z * GroupInfo))
  : list Z * list (Z * GroupInfo) :=
  let '(users, groups) := st in
  let users :=
    match ctx_from ctx with
    | Some id => if (id =? 0)%Z then users else set_add id users
    | None => users
    end in
  let groups :=
    match ctx_chat ctx with
    | Some chat =>
        if is_group_chat (chat_type chat) then
          map_set (chat_id chat)
                  {| title := default [] (ctx_title ctx); type := chat_type chat |}
                  groups
        else groups
    | None => groups
    end in
  (users, groups).

(** One line of the group list of the dashboard, and the line that ends a
    list cut short. *)
Definition group_line (index chatId : Z) (info : GroupInfo) : jsstring :=
  [LINE_FEED] ++ integer_text index ++ js ". "
    ++ (if truthy (title info) then title info else js "(no title)")
    ++ js " [" ++ integer_text chatId ++ js "]".

Definition more_line (totalGroups : Z) : jsstring :=
  [LINE_FEED; 0x2026] ++ js " and more (" ++ integer_text totalGroups
    ++ js " groups total)".

(** The [for] loop of the older [/admin] over [groups.entries()], with its
    [index] and the [groupList] built so far. *)
Fixpoint group_list_from (entries : list (Z * GroupInfo)) (totalGroups index : Z)
    (groupList : jsstring) : jsstring :=
  match entries with
  | [] => groupList
  | (chatId, info) :: rest =>
      if (30 <? index)%Z then groupList ++ more_line totalGroups
      else group_list_from rest totalGroups (index + 1)
             (groupList ++ group_line index chatId info)
  end.

(** The contexts of a run of updates, tracked one after the other. *)
Definition track_all (ctxs : list Context) (st : list Z * list (Z * GroupInfo))
  : list Z * list (Z * GroupInfo) :=
  fold_left (fun st ctx => trackContext ctx st) ctxs st.

(** The numbered lines of some entries, from a first index on. *)
Fixpoint numbered_lines (index : Z) (entries : list (Z * GroupInfo)) : jsstring :=
  match entries with
  | [] => []
  | (chatId, info) :: rest =>
      group_line index chatId info ++ numbered_lines (index + 1) rest
  end.

Definition user_context (id : Z) : Context :=
  {| ctx_from := Some id; ctx_chat := None; ctx_title := None |}.

(** *** Vocabulary of the further statements *)

(** The characters the keypad can put into an expression. *)
Definition keypad_alphabet : jsstring := js "0123456789/*-+.()".

Definition in_alphabet (alphabet : jsstring) (c : N) : bool :=
  existsb (N.eqb c) alphabet.

(** The pattern character [p] can match a character of the alphabet. *)
Definition matches_alphabet (alphabet : jsstring) (p : N) : bool :=
  existsb (N.eqb (Regex.canonicalize p)) (List.map Regex.canonicalize alphabet).

(** The callback data of all the buttons of [kb()]. *)
Definition keypad_data : list jsstring := List.map data (List.concat kb).

(** Whole seconds read back from an uptime text: a number counts for its
    unit letter. *)
Definition uptime_step (st : Z * Z) (c : N) : Z * Z :=
  let '(total, current) := st in
  if (0x30 <=? c) && (c <=? 0x39) then (total, 10 * current + (Z.of_N c - 0x30))%Z
  else if c =? 0x64 then (total + current * 86400, 0)%Z
  else if c =? 0x68 then (total + current * 3600, 0)%Z
  else if c =? 0x6D then (total + current * 60, 0)%Z
  else if c =? 0x73 then (total + current, 0)%Z
  else (total, current).

Definition uptime_seconds (text : jsstring) : Z :=
  fst (fold_left uptime_step text (0, 0)%Z).

(** One character of the normalized text for one character of the trimmed
    input. *)
Definition normalize_char (c : N) : jsstring :=
  if c =? MULTIPLICATION_SIGN then js "*"
  else if c =? DIVISION_SIGN then js "/"
  else if c =? EM_DASH then js "-"
  else if c =? MINUS_SIGN then js "-"
  else if c =? COMMA then []
  else [c].

Definition pretty_char (c : N) : N :=
  if c =? 0x2A then MULTIPLICATION_SIGN
  else if c =? 0x2F then DIVISION_SIGN
  else c.

Definition group_chat (id : Z) : Chat := {| chat_id := id; chat_type := Group |}.

(** [e.message] of what [safeEval] throws, the only part of the error its
    callers read. *)
Definition thrown_message (o : EvaluationOutcome) : option jsstring :=
  match o with
  | Rejected e => Some (message e)
  | Ok _ => None
  end.

(** * Properties *)

(** ** Strings *)

Lemma trimStart_all_whitespace (s : jsstring) :
  forallb is_whitespace s = true -> trimStart s = [].
Proof.
  induction s as [|c s IH]; simpl; [reflexivity|].
  intros H. apply andb_true_iff in H as [Hc Hs].
  rewrite Hc. auto.
Qed.

Lemma trim_all_whitespace (s : jsstring) :
  forallb is_whitespace s = true -> trim s = [].
Proof.
  intros H. unfold trim. rewrite trimStart_all_whitespace by assumption.
  reflexivity.
Qed.

Lemma trimStart_no_whitespace (s : jsstring) :
  Forall (fun c => is_whitespace c = false) s -> trimStart s = s.
Proof.
  destruct 1 as [|c s Hc Hs]; simpl; [reflexivity|]. now rewrite Hc.
Qed.

Lemma trim_no_whitespace (s : jsstring) :
  Forall (fun c => is_whitespace c = false) s -> trim s = s.
Proof.
  intros H. unfold trim, trimEnd.
  rewrite (trimStart_no_whitespace s H).
  rewrite trimStart_no_whitespace.
  - apply rev_involutive.
  - apply Forall_rev. exact H.
Qed.

Lemma replace_all_absent (c : N) (by_ s : jsstring) :
  Forall (fun d => (d =? c) = false) s -> replace_all c by_ s = s.
Proof.
  induction 1 as [|d s Hd Hs IH]; simpl; [reflexivity|].
  rewrite Hd. now f_equal.
Qed.

(** ** The blocklist pattern *)

Lemma canonicalize_lower (c p : N) :
  (Regex.canonicalize c =? Regex.canonicalize p) = true <-> lower c = lower p.
Proof.
  rewrite N.eqb_eq. unfold Regex.canonicalize, lower.
  repeat match goal with
         | |- context [?a <=? ?b] => destruct (N.leb_spec a b)
         end; simpl; lia.
Qed.

Lemma match_literal_i_spec (w s : jsstring) :
  Regex.match_literal_i w s = true <->
  exists mid post, s = mid ++ post /\ same_ignoring_case mid w.
Proof.
  unfold same_ignoring_case. revert s.
  induction w as [|p w IH]; intros s; simpl.
  - split; [|reflexivity]. intros _. exists [], s. split; reflexivity.
  - destruct s as [|c s].
    + split; [discriminate|].
      intros (mid & post & Hs & Hm).
      destruct mid; [discriminate Hm | discriminate Hs].
    + rewrite andb_true_iff, canonicalize_lower, IH. split.
      * intros (Hc & mid & post & -> & Hm).
        exists (c :: mid), post. simpl. split; [reflexivity|]. now f_equal.
      * intros (mid & post & Hs & Hm).
        destruct mid as [|d mid]; [discriminate Hm|].
        simpl in Hs, Hm. injection Hs as <- ->. injection Hm as Hc Hm.
        split; [exact Hc|]. exists mid, post. split; [reflexivity | exact Hm].
Qed.

Lemma test_alternation_i_spec (alts : list jsstring) (s : jsstring) :
  Regex.test_alternation_i alts s = true <->
  exists w, In w alts /\ contains_ignoring_case w s.
Proof.
  unfold contains_ignoring_case.
  induction s as [|c s IH].
  - simpl. rewrite orb_false_r, existsb_exists. split.
    + intros (w & Hw & Hm). apply match_literal_i_spec in Hm as (mid & post & Hs & Hm).
      exists w. split; [exact Hw|]. exists [], mid, post. split; assumption.
    + intros (w & Hw & pre & mid & post & Hs & Hm). exists w. split; [exact Hw|].
      apply match_literal_i_spec.
      destruct pre; [|discriminate Hs]. exists mid, post. split; assumption.
  - cbn [Regex.test_alternation_i]. rewrite orb_true_iff, existsb_exists, IH. split.
    + intros [(w & Hw & Hm) | (w & Hw & pre & mid & post & -> & Hm)].
      * apply match_literal_i_spec in Hm as (mid & post & Hs & Hm).
        exists w. split; [exact Hw|]. exists [], mid, post. split; assumption.
      * exists w. split; [exact Hw|]. exists (c :: pre), mid, post.
        split; [reflexivity | exact Hm].
    + intros (w & Hw & pre & mid & post & Hs & Hm).
      destruct pre as [|d pre].
      * left. exists w. split; [exact Hw|]. apply match_literal_i_spec.
        exists mid, post. split; assumption.
      * right. simpl in Hs. injection Hs as <- ->.
        exists w. split; [exact Hw|]. exists pre, mid, post.
        split; [reflexivity | exact Hm].
Qed.

Lemma blocked_test_spec (s : jsstring) :
  blocked_test s = true <-> has_denylisted s.
Proof. apply test_alternation_i_spec. Qed.

Lemma allowed_test_false (s : jsstring) :
  allowed_test s = false <-> has_disallowed_char s.
Proof.
  unfold allowed_test, Regex.test_class_star, has_disallowed_char.
  induction s as [|c s IH]; simpl.
  - split; [discriminate|]. intros (c & [] & _).
  - rewrite andb_false_iff, IH. split.
    + intros [Hc | (d & Hd & Hda)].
      * exists c. split; [now left | exact Hc].
      * exists d. split; [now right | exact Hda].
    + intros (d & [<- | Hd] & Hda); [now left|].
      right. exists d. split; assumption.
Qed.

(** ** [safeEval], guard by guard *)

Lemma safeEval_blocked (eng : Engine) (s : jsstring) :
  blocked_test (normalize s) = true ->
  safeEval eng s = Rejected unsupported_expression.
Proof. intros H. unfold safeEval. now rewrite H. Qed.

Lemma safeEval_disallowed (eng : Engine) (s : jsstring) :
  blocked_test (normalize s) = false ->
  allowed_test (normalize s) = false ->
  safeEval eng s = Rejected invalid_characters.
Proof. intros Hb Ha. unfold safeEval. now rewrite Hb, Ha. Qed.

Lemma safeEval_engine (eng : Engine) (s : jsstring) :
  blocked_test (normalize s) = false ->
  allowed_test (normalize s) = true ->
  safeEval eng s = postprocess (eng (normalize s)).
Proof. intros Hb Ha. unfold safeEval. now rewrite Hb, Ha. Qed.

(** Normalization and both guards are evaluated on a given text; what is
    left is the engine's result for the normalized text. *)
Ltac to_engine :=
  rewrite safeEval_engine by (vm_compute; reflexivity);
  match goal with
  | |- context [normalize ?s] =>
      let n := eval vm_compute in (normalize s) in
      change (normalize s) with n
  end.

(** ** The character allowlist *)

(** C1, as the code orders its guards: when the normalized input holds a
    character outside the allowlist and no denylisted identifier, [safeEval]
    throws "Invalid characters.", whatever the engine is. *)
Theorem disallowed_character_rejected (eng : Engine) (s : jsstring) :
  ~ has_denylisted (normalize s) ->
  has_disallowed_char (normalize s) ->
  safeEval eng s = Rejected invalid_characters.
Proof.
  intros Hdeny Hchar. apply safeEval_disallowed.
  - destruct (blocked_test (normalize s)) eqn:Hb; [|reflexivity].
    exfalso. apply Hdeny, blocked_test_spec, Hb.
  - apply allowed_test_false, Hchar.
Qed.

Lemma disallowed_character_rejected_witness :
  ~ has_denylisted (normalize (js "2+x"))
  /\ has_disallowed_char (normalize (js "2+x"))
  /\ safeEval Arith.evaluate (js "2+x") = Rejected invalid_characters.
Proof.
  assert (Hd : ~ has_denylisted (normalize (js "2+x"))).
  { intros H. apply blocked_test_spec in H. vm_compute in H. discriminate H. }
  assert (Hc : has_disallowed_char (normalize (js "2+x"))).
  { exists 0x78. split; [vm_compute; tauto | reflexivity]. }
  split; [exact Hd|]. split; [exact Hc|].
  exact (disallowed_character_rejected Arith.evaluate (js "2+x") Hd Hc).
Defined.

(** C1 as stated fails: every letter of [import] but [i], [p] is outside the
    allowlist, yet the blocklist, which is tested first, rejects the text as
    unsupported. *)
Lemma disallowed_character_not_always_invalid :
  ~ (forall (eng : Engine) (s : jsstring),
        has_disallowed_char (normalize s) ->
        safeEval eng s = Rejected invalid_characters).
Proof.
  intros H. specialize (H Arith.evaluate (js "import")).
  assert (Hc : has_disallowed_char (normalize (js "import"))).
  { exists 0x6D. split; [vm_compute; tauto | reflexivity]. }
  specialize (H Hc). vm_compute in H. discriminate H.
Qed.

(** ** The blocklist *)

(** C2: when the normalized input contains an identifier of the denylist,
    in any mix of upper and lower case, [safeEval] throws "Unsupported
    expression.". *)
Theorem denylisted_identifier_rejected (eng : Engine) (s w : jsstring) :
  In w denylist ->
  contains_ignoring_case w (normalize s) ->
  safeEval eng s = Rejected unsupported_expression.
Proof.
  intros Hw Hs. apply safeEval_blocked, blocked_test_spec.
  exists w. split; assumption.
Qed.

Lemma denylisted_identifier_rejected_witness :
  In (js "unit") denylist
  /\ contains_ignoring_case (js "unit") (normalize (js "2 UNIT"))
  /\ safeEval Arith.evaluate (js "2 UNIT") = Rejected unsupported_expression.
Proof.
  assert (Hw : In (js "unit") denylist) by (vm_compute; tauto).
  assert (Hs : contains_ignoring_case (js "unit") (normalize (js "2 UNIT"))).
  { exists (js "2 "), (js "UNIT"), []. split; reflexivity. }
  split; [exact Hw|]. split; [exact Hs|].
  exact (denylisted_identifier_rejected Arith.evaluate (js "2 UNIT") (js "unit") Hw Hs).
Defined.

(** ** Empty input *)

Lemma normalize_all_whitespace (s : jsstring) :
  forallb is_whitespace s = true -> normalize s = [].
Proof.
  intros H. unfold normalize. now rewrite trim_all_whitespace.
Qed.

Lemma postprocess_never_empty_expression (r : EngineResult) :
  rejection_kind (postprocess r) <> Some EmptyExpression.
Proof.
  destruct r as [[x|text]|msg]; simpl; try discriminate.
  destruct (Num.isFinite x); simpl; discriminate.
Qed.

(** C3, as the code has it: an empty or all-whitespace input is normalized
    to the empty text, passes both guards and is handed to the engine; the
    outcome is the engine's result for the empty text, post-processed, and is
    never an [EmptyExpression] rejection. *)
Theorem empty_input_goes_to_engine (eng : Engine) (s : jsstring) :
  forallb is_whitespace s = true ->
  safeEval eng s = postprocess (eng [])
  /\ rejection_kind (safeEval eng s) <> Some EmptyExpression.
Proof.
  intros H.
  assert (E : safeEval eng s = postprocess (eng [])).
  { unfold safeEval. rewrite (normalize_all_whitespace s H). reflexivity. }
  split; [exact E|]. rewrite E. apply postprocess_never_empty_expression.
Qed.

Lemma empty_input_goes_to_engine_witness :
  forallb is_whitespace (js "  ") = true
  /\ safeEval Arith.evaluate (js "  ") = Ok (js "undefined").
Proof.
  split; [reflexivity|].
  exact (proj1 (empty_input_goes_to_engine Arith.evaluate (js "  ") eq_refl)).
Defined.

(** C3 as stated fails: no engine makes [safeEval] reject the empty input as
    an [EmptyExpression]. *)
Lemma empty_input_not_rejected_as_empty :
  ~ (forall (eng : Engine) (s : jsstring),
        forallb is_whitespace s = true ->
        rejection_kind (safeEval eng s) = Some EmptyExpression).
Proof.
  intros H. specialize (H Arith.evaluate [] eq_refl).
  vm_compute in H. discriminate H.
Qed.

(** ** Non-finite results *)

(** C4: when the input reaches the engine (it passes both guards) and the
    engine returns a number that is not finite, an infinity or NaN,
    [safeEval] throws "Result is not finite.". *)
Theorem non_finite_result_rejected (eng : Engine) (s : jsstring) (x : float) :
  blocked_test (normalize s) = false ->
  allowed_test (normalize s) = true ->
  eng (normalize s) = Returns (VNumber x) ->
  Num.isFinite x = false ->
  safeEval eng s = Rejected result_not_finite.
Proof.
  intros Hb Ha He Hx. rewrite safeEval_engine by assumption.
  rewrite He. simpl. now rewrite Hx.
Qed.

Lemma non_finite_result_rejected_witness :
  Arith.evaluate (normalize (js "10/0")) = Returns (VNumber (10 / 0)%float)
  /\ Num.isFinite (10 / 0)%float = false
  /\ safeEval Arith.evaluate (js "10/0") = Rejected result_not_finite.
Proof.
  split; [vm_compute; reflexivity|]. split; [reflexivity|].
  apply (non_finite_result_rejected Arith.evaluate (js "10/0") (10 / 0)%float);
    vm_compute; reflexivity.
Defined.

(** ** Worked examples *)

(** C5: with an engine that computes [2+2 = 4], [2^10 = 1024] and
    [12*(3+4) = 84], [safeEval] returns "4", "1024" and "84" for the inputs
    [2+2], [2^10] and [12×(3+4)]; the multiplication sign is replaced by [*]
    before the text reaches the engine, and the text written with [*] is
    left as it is. *)
Theorem worked_examples (eng : Engine) :
  eng (js "2+2") = Returns (VNumber 4%float) ->
  eng (js "2^10") = Returns (VNumber 1024%float) ->
  eng (js "12*(3+4)") = Returns (VNumber 84%float) ->
  safeEval eng (js "2+2") = Ok (js "4")
  /\ safeEval eng (js "2^10") = Ok (js "1024")
  /\ safeEval eng twelve_times_sum = Ok (js "84")
  /\ normalize twelve_times_sum = js "12*(3+4)"
  /\ normalize (js "12*(3+4)") = js "12*(3+4)".
Proof.
  intros H1 H2 H3. vm_compute in H1, H2, H3.
  repeat split.
  - to_engine. rewrite H1. vm_compute. reflexivity.
  - to_engine. rewrite H2. vm_compute. reflexivity.
  - to_engine. rewrite H3. vm_compute. reflexivity.
Qed.

Lemma worked_examples_witness :
  safeEval Arith.evaluate (js "2+2") = Ok (js "4")
  /\ safeEval Arith.evaluate (js "2^10") = Ok (js "1024")
  /\ safeEval Arith.evaluate twelve_times_sum = Ok (js "84").
Proof.
  destruct (worked_examples Arith.evaluate) as (H1 & H2 & H3 & _);
    [vm_compute; reflexivity ..|].
  split; [exact H1|]. split; [exact H2 | exact H3].
Defined.

(** ** The text of a finite number *)

Lemma numeric_char_elim (P : N -> bool) :
  forallb P numeric_alphabet = true ->
  forall c, numeric_char c = true -> P c = true.
Proof.
  intros HP c Hc. unfold numeric_char in Hc.
  apply existsb_exists in Hc as (d & Hd & E).
  apply N.eqb_eq in E. subst d.
  rewrite forallb_forall in HP. apply HP, Hd.
Qed.

Lemma digit_char_numeric (z : Z) :
  numeric_char (Num.digit_char (z mod 10)) = true.
Proof.
  pose proof (Z.mod_pos_bound z 10 eq_refl) as Hr.
  set (r := (z mod 10)%Z) in *.
  assert (r = 0 \/ r = 1 \/ r = 2 \/ r = 3 \/ r = 4 \/ r = 5 \/ r = 6
          \/ r = 7 \/ r = 8 \/ r = 9)%Z as Hcases by lia.
  repeat (destruct Hcases as [-> | Hcases]; [reflexivity|]).
  rewrite Hcases. reflexivity.
Qed.

Lemma digits_from_numeric (fuel : nat) (z : Z) (acc : jsstring) :
  all_numeric acc -> all_numeric (Num.digits_from fuel z acc).
Proof.
  revert z acc. induction fuel as [|fuel IH]; intros z acc Hacc; simpl.
  - exact Hacc.
  - assert (all_numeric (Num.digit_char (z mod 10) :: acc)) as Hacc'.
    { constructor; [apply digit_char_numeric | exact Hacc]. }
    destruct (z <? 10)%Z; [exact Hacc' | apply IH, Hacc'].
Qed.

Lemma digits_numeric (z : Z) : all_numeric (Num.digits z).
Proof. apply digits_from_numeric. constructor. Qed.

Lemma repeat_zero_numeric (n : nat) : all_numeric (repeat Num.CH_0 n).
Proof. induction n; simpl; constructor; [reflexivity | assumption]. Qed.

Lemma layout_numeric (ds : jsstring) (n : Z) :
  all_numeric ds -> all_numeric (Num.layout ds n).
Proof.
  intros Hds. unfold Num.layout.
  assert (Hexp : all_numeric
            (Num.CH_e :: (if (n - 1 <? 0)%Z then Num.CH_MINUS else Num.CH_PLUS)
                      :: Num.digits (Z.abs (n - 1)))).
  { constructor; [reflexivity|]. constructor.
    - destruct (n - 1 <? 0)%Z; reflexivity.
    - apply digits_numeric. }
  repeat match goal with
         | |- context [if ?b then _ else _] => destruct b
         end.
  - apply Forall_app. split; [exact Hds | apply repeat_zero_numeric].
  - apply Forall_app. split; [apply Forall_take, Hds|].
    constructor; [reflexivity | apply Forall_drop, Hds].
  - constructor; [reflexivity|]. constructor; [reflexivity|].
    apply Forall_app. split; [apply repeat_zero_numeric | exact Hds].
  - destruct Hds as [|d ds Hd Hds]; [exact Hexp|].
    destruct Hds as [|d' ds' Hd' Hds'].
    + constructor; [exact Hd | exact Hexp].
    + constructor; [exact Hd|]. constructor; [reflexivity|].
      apply Forall_app. split; [|exact Hexp].
      constructor; assumption.
  - destruct Hds as [|d ds Hd Hds]; [exact Hexp|].
    destruct Hds as [|d' ds' Hd' Hds'].
    + constructor; [exact Hd | exact Hexp].
    + constructor; [exact Hd|]. constructor; [reflexivity|].
      apply Forall_app. split; [|exact Hexp].
      constructor; assumption.
Qed.

(** A float that is neither NaN nor an infinity is a zero or [m * 2^e]. *)
Lemma finite_float_cases (x : float) :
  is_nan x = false -> is_infinity x = false ->
  (exists s, Prim2SF x = S754_zero s)
  \/ (exists s m e, Prim2SF x = S754_finite s m e).
Proof.
  intros Hnan Hinf. unfold Prim2SF. rewrite Hnan.
  destruct (is_zero x); [left; eauto|]. rewrite Hinf.
  destruct (Z.frexp x) as [r exp].
  destruct (shr_fexp _ _ _ _ _) as [shr e'].
  destruct (shr_m shr); eauto.
Qed.

Lemma Number_toString_numeric (x : float) :
  Num.isFinite x = true -> all_numeric (Num.Number_toString x).
Proof.
  unfold Num.isFinite, is_finite. intros H.
  apply negb_true_iff, orb_false_iff in H as [Hnan Hinf].
  unfold Num.Number_toString. rewrite Hnan, Hinf.
  destruct (finite_float_cases x Hnan Hinf) as [(s & ->) | (s & m & e & ->)].
  - repeat constructor.
  - destruct (Num.shortest (Z.pos m) e) as [d n].
    apply Forall_app. split.
    + destruct s; repeat constructor.
    + apply layout_numeric, digits_numeric.
Qed.

Lemma numeric_normalize (r : jsstring) : all_numeric r -> normalize r = r.
Proof.
  intros H. unfold normalize.
  rewrite trim_no_whitespace.
  2:{ eapply Forall_impl; [|exact H].
      intros c Hc. apply negb_true_iff. revert c Hc.
      apply numeric_char_elim. reflexivity. }
  repeat rewrite replace_all_absent; try reflexivity;
    (eapply Forall_impl; [|exact H]);
    intros c Hc; apply negb_true_iff; revert c Hc;
    apply numeric_char_elim; reflexivity.
Qed.

Lemma numeric_allowed (r : jsstring) : all_numeric r -> allowed_test r = true.
Proof.
  intros H. apply forallb_forall. rewrite Forall_forall in H.
  intros c Hc. apply (numeric_char_elim allowed_char eq_refl), H, Hc.
Qed.

Lemma match_literal_i_numeric (w s : jsstring) :
  all_numeric s -> Regex.match_literal_i w s = true ->
  forallb matches_numeric w = true.
Proof.
  revert s. induction w as [|p w IH]; intros s Hs Hm; [reflexivity|].
  destruct Hs as [|c s Hc Hs]; [discriminate Hm|].
  simpl in Hm. apply andb_true_iff in Hm as [Hcp Hm].
  simpl. apply andb_true_iff. split; [|exact (IH s Hs Hm)].
  apply N.eqb_eq in Hcp. unfold matches_numeric. apply existsb_exists.
  exists (Regex.canonicalize c). split; [|now apply N.eqb_eq].
  apply in_map. unfold numeric_char in Hc.
  apply existsb_exists in Hc as (d & Hd & E). apply N.eqb_eq in E. now subst.
Qed.

(** Every denylisted identifier has a letter that no numeric character
    matches. *)
Lemma denylist_not_numeric :
  forallb (fun w => negb (forallb matches_numeric w)) denylist = true.
Proof. vm_compute. reflexivity. Qed.

Lemma numeric_not_blocked (r : jsstring) : all_numeric r -> blocked_test r = false.
Proof.
  unfold blocked_test. induction 1 as [|c r Hc Hr IH].
  - vm_compute. reflexivity.
  - cbn [Regex.test_alternation_i]. rewrite IH, orb_false_r.
    destruct (existsb _ denylist) eqn:E; [|reflexivity].
    apply existsb_exists in E as (w & Hw & Hm).
    apply match_literal_i_numeric in Hm; [|constructor; assumption].
    pose proof denylist_not_numeric as D. rewrite forallb_forall in D.
    specialize (D w Hw). rewrite Hm in D. discriminate D.
Qed.

(** The text of a finite number passes through normalization unchanged and
    passes both guards: evaluating it again is a matter of the engine and
    of the rounding alone. *)
Lemma safeEval_number_text (eng : Engine) (y : float) :
  Num.isFinite y = true ->
  safeEval eng (Num.Number_toString y) = postprocess (eng (Num.Number_toString y)).
Proof.
  intros Hy. pose proof (Number_toString_numeric y Hy) as Hn.
  rewrite safeEval_engine; rewrite (numeric_normalize _ Hn).
  - reflexivity.
  - apply numeric_not_blocked, Hn.
  - apply numeric_allowed, Hn.
Qed.

(** What a successful evaluation of a numeric result returns. *)
Lemma safeEval_number (eng : Engine) (s r : jsstring) (x : float) :
  eng (normalize s) = Returns (VNumber x) ->
  safeEval eng s = Ok r ->
  Num.isFinite x = true /\ r = Num.Number_toString (round12 x).
Proof.
  intros He. unfold safeEval.
  destruct (blocked_test (normalize s)); [discriminate|].
  destruct (allowed_test (normalize s)); simpl; [|discriminate].
  rewrite He. simpl. destruct (Num.isFinite x); simpl; [|discriminate].
  intros [= <-]. split; reflexivity.
Qed.

(** ** Rounding *)

(** C6 fails on the code at large magnitudes: [1e300] is finite, so the
    check of line 80 lets it through, but the scaling by [1e12] overflows
    and the text returned as a success is "Infinity", not a decimal. *)
Theorem large_result_prints_infinity (eng : Engine) :
  eng (js "1e300") = Returns (VNumber TEN_300) ->
  Num.isFinite TEN_300 = true
  /\ safeEval eng (js "1e300") = Ok (js "Infinity").
Proof.
  intros H. vm_compute in H. split; [reflexivity|].
  to_engine. rewrite H. vm_compute. reflexivity.
Qed.

Lemma large_result_prints_infinity_witness :
  Arith.evaluate (js "1e300") = Returns (VNumber TEN_300)
  /\ safeEval Arith.evaluate (js "1e300") = Ok (js "Infinity").
Proof.
  split; [vm_compute; reflexivity|].
  apply (large_result_prints_infinity Arith.evaluate). vm_compute. reflexivity.
Defined.

(** In the usual range the scheme does what C6 describes: π is returned
    with twelve decimals, trailing zeros dropped. *)
Lemma pi_to_twelve_places (eng : Engine) :
  eng (js "pi") = Returns (VNumber Arith.PI) ->
  safeEval eng (js "pi") = Ok (js "3.14159265359").
Proof.
  intros H. vm_compute in H. to_engine. rewrite H. vm_compute. reflexivity.
Qed.

(** ** Evaluating an output again *)




(** The same two steps on the numbers themselves, free of any engine. *)
Lemma round12_not_idempotent :
  round12 (round12 0x1.151d554d140a3p+12) <> round12 0x1.151d554d140a3p+12.
Proof. vm_compute. intros H. discriminate H. Qed.

(** ** The keypad session *)

Lemma deliver_same_fields (tg : Telegram) (chatId : Z) (s : Session) :
  same_fields (fst (deliver tg chatId s)) s.
Proof.
  unfold deliver, same_fields.
  destruct (current_message s);
    [destruct (editMessageText tg _ _ _) | destruct (reply tg _)];
    try destruct (reply_in_catch tg _); simpl; split; reflexivity.
Qed.

Lemma apply_key_same_fields (eng : Engine) (key : jsstring) (s t : Session) :
  same_fields s t -> same_fields (apply_key eng key s) (apply_key eng key t).
Proof.
  intros [He Hr]. unfold apply_key, same_fields.
  repeat case_decide; simpl; rewrite ?He, ?Hr; split; reflexivity.
Qed.

Lemma apply_keys_same_fields (eng : Engine) (keys : list jsstring) (s t : Session) :
  same_fields s t -> same_fields (apply_keys eng keys s) (apply_keys eng keys t).
Proof.
  revert s t. induction keys as [|k keys IH]; intros s t H; simpl; [exact H|].
  apply IH, apply_key_same_fields, H.
Qed.

Lemma same_fields_trans (s t u : Session) :
  same_fields s t -> same_fields t u -> same_fields s u.
Proof. intros [? ?] [? ?]. split; congruence. Qed.

Lemma callback_query_button (eng : Engine) (tg : Telegram) (chatId : Z)
    (key : jsstring) (state : State) :
  callback_query eng tg chatId (js "k:" ++ key) state
  = let s := default fresh_session (state !! chatId) in
    let '(s', h) := deliver tg chatId (apply_key eng key s) in
    (<[chatId := s']> (<[chatId := s]> state),
     match h with
     | Completed => answered tg
     | Threw => Threw
     end).
Proof.
  unfold callback_query.
  change (js "k:") with [0x6B; 0x3A]. unfold slice_from. simpl.
  reflexivity.
Qed.

(** A button press stores the session the [if] chain produces, with the
    message id the delivery leaves, and touches no other chat. *)
Lemma callback_query_key (eng : Engine) (tg : Telegram) (chatId : Z)
    (key : jsstring) (state : State) :
  let s := default fresh_session (state !! chatId) in
  let state' := fst (callback_query eng tg chatId (js "k:" ++ key) state) in
  (exists s', state' !! chatId = Some s' /\ same_fields s' (apply_key eng key s))
  /\ (forall other, other <> chatId -> state' !! other = state !! other).
Proof.
  intros s state'. subst state'. rewrite callback_query_button. fold s.
  cbv zeta.
  pose proof (deliver_same_fields tg chatId (apply_key eng key s)) as Hd.
  destruct (deliver tg chatId (apply_key eng key s)) as [s' h]. simpl in *.
  split.
  - exists s'. split; [apply lookup_insert_eq | exact Hd].
  - intros other Ho. rewrite !lookup_insert_ne by congruence. reflexivity.
Qed.

Lemma press_all_keys (eng : Engine) (chatId : Z) (keys : list jsstring) :
  forall (events : list (Telegram * jsstring)) (state : State) (s : Session),
    List.map snd events = List.map (app (js "k:")) keys ->
    state !! chatId = Some s ->
    exists s', press_all eng chatId events state !! chatId = Some s'
               /\ same_fields s' (apply_keys eng keys s).
Proof.
  induction keys as [|k keys IH]; intros events state s Hev Hs.
  - destruct events; [|discriminate Hev]. simpl.
    exists s. split; [exact Hs | split; reflexivity].
  - destruct events as [|[tg data] events]; [discriminate Hev|].
    simpl in Hev. injection Hev as -> Hev. simpl.
    destruct (callback_query_key eng tg chatId k state) as [(s1 & H1 & F1) _].
    rewrite Hs in F1. simpl in F1.
    destruct (IH events _ s1 Hev H1) as (s' & H' & F').
    exists s'. split; [exact H'|].
    eapply same_fields_trans; [exact F'|].
    apply apply_keys_same_fields, F1.
Qed.

(** C9: the frame conditions of a button press, on the session the handler
    leaves in the map.  A key other than [C], [BS] and [=] (the digits, the
    operators, the parentheses and the dot of the keypad) is appended to the
    expression and leaves the result as it was; [BS] leaves the result as it
    was and drops the last character of the expression; [=] leaves the
    expression as it was and sets the result to the value [safeEval] returns,
    to [Error: ] followed by the message of what it throws, or to the empty
    string when the expression is empty. *)
Theorem key_press_frame (eng : Engine) (tg : Telegram) (chatId : Z)
    (key : jsstring) (state : State) :
  let s := default fresh_session (state !! chatId) in
  exists s',
    fst (callback_query eng tg chatId (js "k:" ++ key) state) !! chatId = Some s'
    /\ (key <> js "C" -> key <> js "BS" -> key <> js "=" ->
        expr s' = expr s ++ key /\ result s' = result s)
    /\ (key = js "BS" ->
        expr s' = removelast (expr s) /\ result s' = result s)
    /\ (key = js "=" ->
        expr s' = expr s
        /\ result s' =
             match expr s with
             | [] => []
             | _ :: _ =>
                 match safeEval eng (expr s) with
                 | Ok value => value
                 | Rejected e => js "Error: " ++ message e
                 end
             end).
Proof.
  intros s.
  destruct (callback_query_key eng tg chatId key state) as [(s' & Hs' & He & Hr) _].
  fold s in He, Hr. exists s'. split; [exact Hs'|].
  rewrite He, Hr. unfold apply_key. split; [|split].
  - intros HC HBS HEQ. repeat case_decide; try contradiction. simpl. auto.
  - intros ->. case_decide; [discriminate|]. case_decide; [|contradiction].
    simpl. auto.
  - intros ->. repeat (case_decide; [discriminate|]). case_decide; [|contradiction].
    simpl. split; [reflexivity|]. destruct (expr s); reflexivity.
Qed.

Lemma key_press_frame_witness :
  exists s',
    fst (callback_query Arith.evaluate failing_telegram 7 (js "k:" ++ js "7") ∅)
      !! 7%Z = Some s'
    /\ expr s' = js "7" /\ result s' = [].
Proof.
  destruct (key_press_frame Arith.evaluate failing_telegram 7 (js "7") ∅)
    as (s' & Hs' & Hliteral & _).
  exists s'. split; [exact Hs'|].
  apply Hliteral; discriminate.
Defined.

Lemma apply_key_literal (eng : Engine) (key : jsstring) (s : Session) :
  key <> js "C" -> key <> js "BS" -> key <> js "=" ->
  apply_key eng key s
  = {| expr := expr s ++ key; result := result s; msgId := msgId s |}.
Proof.
  intros HC HBS HEQ. unfold apply_key.
  repeat (case_decide; [contradiction|]). reflexivity.
Qed.

Lemma apply_key_clear (eng : Engine) (s : Session) :
  apply_key eng (js "C") s = {| expr := []; result := []; msgId := msgId s |}.
Proof. unfold apply_key. case_decide; [reflexivity | contradiction]. Qed.

Lemma apply_key_equals (eng : Engine) (s : Session) :
  apply_key eng (js "=") s
  = {| expr := expr s;
       result :=
         if truthy (expr s) then
           match safeEval eng (expr s) with
           | Ok value => value
           | Rejected e => js "Error: " ++ message e
           end
         else [];
       msgId := msgId s |}.
Proof.
  unfold apply_key. repeat (case_decide; [discriminate|]).
  case_decide; [reflexivity | contradiction].
Qed.

(** [BS] on an empty expression changes nothing in the session object. *)
Lemma backspace_on_empty (eng : Engine) (s : Session) :
  expr s = [] -> apply_key eng (js "BS") s = s.
Proof.
  intros H. unfold apply_key.
  case_decide; [discriminate|]. case_decide; [|contradiction].
  destruct s as [e r m]. simpl in *. subst e. reflexivity.
Qed.

(** C8: open the calculator, press [1], [2], [+], [3], [=]: the result is
    "15" (with an engine that computes [12+3 = 15]), whatever the platform
    answers when the keypad is shown.  [C] then empties both the expression
    and the result.  [BS] on an empty expression leaves the session object
    as it is; the handler leaves expression and result as they were, and
    when the keypad message is edited in place the whole map is unchanged
    and the handler ends as its closing [answerCbQuery] does: it completes
    when that call succeeds and throws when that call throws. *)
Theorem keypad_session_example (eng : Engine) (chatId : Z) (state : State)
    (tg_open tg_clear : Telegram) (events : list (Telegram * jsstring)) :
  eng (js "12+3") = Returns (VNumber 15%float) ->
  List.map snd events
    = [button "1"; button "2"; button "+"; button "3"; button "="] ->
  let opened := fst (calculator_command tg_open chatId state) in
  let pressed := press_all eng chatId events opened in
  let cleared := fst (callback_query eng tg_clear chatId (button "C") pressed) in
  (exists s, opened !! chatId = Some s /\ expr s = [] /\ result s = [])
  /\ (exists s, pressed !! chatId = Some s
                /\ expr s = js "12+3" /\ result s = js "15")
  /\ (exists s, cleared !! chatId = Some s /\ expr s = [] /\ result s = [])
  /\ (forall s, expr s = [] -> apply_key eng (js "BS") s = s)
  /\ (forall tg st s,
        st !! chatId = Some s -> expr s = [] ->
        exists s', fst (callback_query eng tg chatId (button "BS") st) !! chatId
                   = Some s'
                   /\ expr s' = [] /\ result s' = result s)
  /\ (forall tg st s id,
        st !! chatId = Some s -> expr s = [] ->
        current_message s = Some id ->
        editMessageText tg chatId id (renderUI [] (result s)) = true ->
        callback_query eng tg chatId (button "BS") st = (st, answered tg)).
Proof.
  intros Heng Hev opened pressed cleared.
  assert (Hopen : exists s, opened !! chatId = Some s /\ expr s = [] /\ result s = []).
  { subst opened. unfold calculator_command.
    destruct (reply tg_open _); simpl; rewrite lookup_insert_eq; eauto. }
  destruct Hopen as (s0 & Hs0 & He0 & Hr0).
  assert (Hpressed : exists s, pressed !! chatId = Some s
                               /\ expr s = js "12+3" /\ result s = js "15").
  { destruct (press_all_keys eng chatId [js "1"; js "2"; js "+"; js "3"; js "="]
                events opened s0 Hev Hs0) as (s & Hs & He & Hr).
    exists s. split; [exact Hs|]. rewrite He, Hr.
    destruct s0 as [e0 r0 m0]. simpl in He0, Hr0. subst e0 r0.
    assert (E : safeEval eng (js "12+3") = Ok (js "15")).
    { vm_compute in Heng. to_engine. rewrite Heng. vm_compute. reflexivity. }
    unfold apply_keys. cbn [fold_left].
    rewrite apply_key_equals, !apply_key_literal by discriminate.
    cbn [expr result msgId]. change ((((([] ++ js "1") ++ js "2") ++ js "+") ++ js "3"))
      with (js "12+3").
    rewrite E.
    split; reflexivity. }
  split; [exists s0; auto|]. split; [exact Hpressed|].
  destruct Hpressed as (s5 & Hs5 & _).
  split; [|split; [|split]].
  - destruct (callback_query_key eng tg_clear chatId (js "C") pressed)
      as [(s & Hs & He & Hr) _].
    exists s. split; [exact Hs|]. rewrite He, Hr. split; reflexivity.
  - apply backspace_on_empty.
  - intros tg st s Hs He.
    destruct (callback_query_key eng tg chatId (js "BS") st)
      as [(s' & Hs' & He' & Hr') _].
    rewrite Hs in He', Hr'.
    change (default fresh_session (Some s)) with s in He', Hr'.
    rewrite (backspace_on_empty eng s He) in He', Hr'.
    exists s'. split; [exact Hs'|]. split; congruence.
  - intros tg st s id Hs He Hid Hedit.
    unfold button. rewrite callback_query_button, Hs.
    change (default fresh_session (Some s)) with s. cbv zeta.
    rewrite (backspace_on_empty eng s He).
    unfold deliver. rewrite Hid, He, Hedit.
    rewrite (insert_id st chatId s Hs). rewrite (insert_id st chatId s Hs).
    reflexivity.
Qed.

Lemma keypad_session_example_witness :
  Arith.evaluate (js "12+3") = Returns (VNumber 15%float)
  /\ exists s,
       press_all Arith.evaluate 7 example_presses
         (fst (calculator_command failing_telegram 7 ∅)) !! 7%Z = Some s
       /\ expr s = js "12+3" /\ result s = js "15".
Proof.
  assert (H : Arith.evaluate (js "12+3") = Returns (VNumber 15%float))
    by (vm_compute; reflexivity).
  split; [exact H|].
  exact (proj1 (proj2 (keypad_session_example Arith.evaluate 7 ∅
                         failing_telegram reliable_telegram example_presses
                         H eq_refl))).
Defined.

(** ** Opening the calculator *)

(** C10: the open-calculator command leaves, for its chat, a session with
    an empty expression and an empty result, whose message id is that of the
    keypad message just sent ([null] when sending failed); a session already
    stored for the chat has no influence on the outcome, and the other chats
    are untouched. *)
Theorem calculator_command_fresh (tg : Telegram) (chatId : Z) (state : State) :
  let state' := fst (calculator_command tg chatId state) in
  (exists s, state' !! chatId = Some s
             /\ expr s = [] /\ result s = []
             /\ msgId s = reply tg (renderUI [] []))
  /\ (forall old : Session,
        calculator_command tg chatId (<[chatId := old]> state)
        = calculator_command tg chatId state)
  /\ (forall other, other <> chatId -> state' !! other = state !! other).
Proof.
  intros state'. subst state'. unfold calculator_command.
  split; [|split].
  - destruct (reply tg _) as [id|]; simpl; rewrite lookup_insert_eq; eauto.
  - intros old. rewrite insert_insert_eq. reflexivity.
  - intros other Ho.
    destruct (reply tg _) as [id|]; simpl;
      rewrite !lookup_insert_ne by congruence; reflexivity.
Qed.

Lemma calculator_command_fresh_witness :
  <[7%Z := used_session]> (∅ : State) !! 7%Z = Some used_session
  /\ fst (calculator_command reliable_telegram 7 (<[7%Z := used_session]> ∅))
     !! 7%Z
     = Some {| expr := []; result := []; msgId := Some 100%Z |}.
Proof.
  split; [reflexivity|].
  destruct (calculator_command_fresh reliable_telegram 7
              (<[7%Z := used_session]> ∅)) as ((s & Hs & He & Hr & Hm) & _).
  destruct s as [e r m]. simpl in He, Hr, Hm. subst e r m. exact Hs.
Defined.

(** * Further properties *)

(** ** [formatUptime] *)

Lemma uptime_fields_sum (ms : Z) :
  (0 <= ms)%Z ->
  let '(days, hours, mins, sec) := uptime_fields ms in
  (days * 86400 + hours * 3600 + mins * 60 + sec = ms / 1000
   /\ 0 <= days /\ 0 <= hours < 24 /\ 0 <= mins < 60 /\ 0 <= sec < 60)%Z.
Proof.
  intros Hms. unfold uptime_fields.
  assert (H0 : (0 <= ms / 1000)%Z) by (apply Z.div_pos; lia).
  set (S0 := (ms / 1000)%Z) in *.
  rewrite (Z.rem_mod_nonneg S0 86400) by lia.
  pose proof (Z.mod_pos_bound S0 86400 eq_refl) as H1.
  set (S1 := (S0 mod 86400)%Z) in *.
  rewrite (Z.rem_mod_nonneg S1 3600) by lia.
  pose proof (Z.mod_pos_bound S1 3600 eq_refl) as H2.
  set (S2 := (S1 mod 3600)%Z) in *.
  rewrite (Z.rem_mod_nonneg S2 60) by lia.
  subst S2 S1. Z.div_mod_to_equations. lia.
Qed.

(** X1: for an uptime of a whole number of milliseconds that is not
    negative and below [2 ^ 53], the four numbers of [formatUptime] are the
    days, hours, minutes and seconds of the whole seconds elapsed: they add
    up to [floor(ms / 1000)], with hours below 24 and minutes and seconds
    below 60. *)
Theorem uptime_fields_decompose (ms : Z) :
  (0 <= ms < 2 ^ 53)%Z ->
  let '(days, hours, mins, sec) := uptime_fields ms in
  (days * 86400 + hours * 3600 + mins * 60 + sec = ms / 1000
   /\ 0 <= days /\ 0 <= hours < 24 /\ 0 <= mins < 60 /\ 0 <= sec < 60)%Z.
Proof. intros [Hms _]. apply uptime_fields_sum, Hms. Qed.

Lemma uptime_fields_decompose_witness :
  (0 <= 90061000 < 2 ^ 53)%Z
  /\ (1 * 86400 + 1 * 3600 + 1 * 60 + 1 = 90061000 / 1000
      /\ 0 <= 1 /\ 0 <= 1 < 24 /\ 0 <= 1 < 60 /\ 0 <= 1 < 60)%Z.
Proof.
  assert (H : (0 <= 90061000 < 2 ^ 53)%Z) by lia.
  split; [exact H|].
  exact (uptime_fields_decompose 90061000 H).
Defined.

Lemma digits_from_app (fuel : nat) (z : Z) (acc : jsstring) :
  Num.digits_from fuel z acc = Num.digits_from fuel z [] ++ acc.
Proof.
  revert z acc. induction fuel as [|fuel IH]; intros z acc; simpl; [reflexivity|].
  destruct (z <? 10)%Z; [reflexivity|].
  rewrite (IH _ (_ :: acc)), (IH _ [_]), <- app_assoc. reflexivity.
Qed.

Lemma uptime_step_digit (total current z : Z) :
  uptime_step (total, current) (Num.digit_char (z mod 10))
  = (total, 10 * current + z mod 10)%Z.
Proof.
  pose proof (Z.mod_pos_bound z 10 eq_refl) as Hr.
  unfold uptime_step, Num.digit_char.
  set (r := (z mod 10)%Z) in *.
  assert (E1 : (0x30 <=? 0x30 + Z.to_N r) = true) by (apply N.leb_le; lia).
  assert (E2 : (0x30 + Z.to_N r <=? 0x39) = true) by (apply N.leb_le; lia).
  rewrite E1, E2. simpl. f_equal. lia.
Qed.

Lemma digits_from_read (fuel : nat) :
  forall z total,
    (0 <= z < 2 ^ Z.of_nat fuel)%Z ->
    fold_left uptime_step (Num.digits_from fuel z []) (total, 0%Z) = (total, z).
Proof.
  induction fuel as [|fuel IH]; intros z total Hz.
  - simpl in Hz. assert (z = 0)%Z as -> by lia. reflexivity.
  - cbn [Num.digits_from]. destruct (Z.ltb_spec z 10) as [Hlt | Hge].
    + cbn [fold_left]. rewrite uptime_step_digit. f_equal.
      rewrite Z.mod_small by lia. lia.
    + rewrite digits_from_app, fold_left_app, IH.
      * cbn [fold_left]. rewrite uptime_step_digit. f_equal.
        Z.div_mod_to_equations. lia.
      * rewrite Nat2Z.inj_succ, Z.pow_succ_r in Hz by lia.
        Z.div_mod_to_equations. lia.
Qed.

Lemma digits_read (z total : Z) :
  (0 <= z)%Z ->
  fold_left uptime_step (Num.digits z) (total, 0%Z) = (total, z).
Proof.
  intros Hz. unfold Num.digits. apply digits_from_read. split; [exact Hz|].
  rewrite Nat2Z.inj_succ, Z2Nat.id by apply Z.log2_nonneg.
  destruct (Z.eq_dec z 0) as [-> | Hne]; [reflexivity|].
  apply Z.log2_spec. lia.
Qed.

(** A part of the uptime text adds its number, counted in its unit, to the
    seconds read so far. *)
Lemma uptime_part_read (v total : Z) (unit_ : N) (rest : jsstring) :
  (0 <= v)%Z ->
  fold_left uptime_step (integer_text v ++ unit_ :: rest) (total, 0%Z)
  = fold_left uptime_step rest (uptime_step (total, v) unit_).
Proof.
  intros Hv. unfold integer_text.
  destruct (Z.ltb_spec v 0) as [Hneg | _]; [lia|].
  rewrite fold_left_app, digits_read by exact Hv. reflexivity.
Qed.

Lemma uptime_seconds_formatUptime (ms : Z) :
  (0 <= ms)%Z -> uptime_seconds (formatUptime ms) = (ms / 1000)%Z.
Proof.
  intros Hms. pose proof (uptime_fields_sum ms Hms) as H.
  unfold formatUptime, uptime_seconds.
  destruct (uptime_fields ms) as [[[days hours] mins] sec].
  destruct H as (Hsum & Hd & Hh & Hm & Hs).
  unfold push_if.
  destruct (Z.eqb_spec days 0) as [Ed | Ed];
    destruct (Z.eqb_spec hours 0) as [Eh | Eh];
    destruct (Z.eqb_spec mins 0) as [Em | Em];
    cbn [negb app join];
    change (js "d") with [0x64]; change (js "h") with [0x68];
    change (js "m") with [0x6D]; change (js "s") with [0x73];
    change (js " ") with [0x20];
    repeat (rewrite <- ?app_assoc; cbn [app];
            rewrite uptime_part_read by lia; cbn [uptime_step N.leb N.eqb];
            simpl fold_left);
    simpl; lia.
Qed.

(** X2: two uptimes of whole numbers of milliseconds, not negative and
    below [2 ^ 53], are shown by the same text only when they amount to the
    same number of whole seconds. *)
Theorem formatUptime_injective (a b : Z) :
  (0 <= a < 2 ^ 53)%Z -> (0 <= b < 2 ^ 53)%Z ->
  formatUptime a = formatUptime b -> (a / 1000 = b / 1000)%Z.
Proof.
  intros [Ha _] [Hb _] E.
  rewrite <- (uptime_seconds_formatUptime a Ha), <- (uptime_seconds_formatUptime b Hb).
  now rewrite E.
Qed.

Lemma formatUptime_injective_witness :
  formatUptime 61000 = formatUptime 61999 /\ (61000 / 1000 = 61999 / 1000)%Z.
Proof.
  assert (E : formatUptime 61000 = formatUptime 61999) by reflexivity.
  split; [exact E|].
  apply (formatUptime_injective 61000 61999); [lia | lia | exact E].
Defined.

(** ** Normalization, character by character *)

Lemma normalize_flat_map (s : jsstring) :
  normalize s = flat_map normalize_char (trim s).
Proof.
  unfold normalize. generalize (trim s) as u.
  induction u as [|c u IH]; [reflexivity|].
  cbn [flat_map]. rewrite <- IH. unfold normalize_char.
  cbn [replace_all].
  destruct (N.eqb_spec c MULTIPLICATION_SIGN) as [-> | H1]; [reflexivity|].
  cbn [replace_all].
  destruct (N.eqb_spec c DIVISION_SIGN) as [-> | H2]; [reflexivity|].
  cbn [replace_all].
  destruct (N.eqb_spec c EM_DASH) as [-> | H3]; [reflexivity|].
  cbn [replace_all].
  destruct (N.eqb_spec c MINUS_SIGN) as [-> | H4]; [reflexivity|].
  cbn [replace_all].
  destruct (N.eqb_spec c COMMA) as [-> | H5]; reflexivity.
Qed.

Lemma in_alphabet_elim (alphabet : jsstring) (P : N -> bool) :
  forallb P alphabet = true ->
  forall c, in_alphabet alphabet c = true -> P c = true.
Proof.
  intros HP c Hc. unfold in_alphabet in Hc.
  apply existsb_exists in Hc as (d & Hd & E).
  apply N.eqb_eq in E. subst d.
  rewrite forallb_forall in HP. apply HP, Hd.
Qed.

(** A text over an alphabet without whitespace, glyphs and commas is its
    own normal form. *)
Lemma alphabet_normalize (alphabet r : jsstring) :
  forallb (fun c => negb (is_whitespace c)) alphabet = true ->
  forallb (fun c => bool_decide (normalize_char c = [c])) alphabet = true ->
  Forall (fun c => in_alphabet alphabet c = true) r ->
  normalize r = r.
Proof.
  intros Hws Hplain Hr. rewrite normalize_flat_map, trim_no_whitespace.
  - induction Hr as [|c r Hc Hr IH]; [reflexivity|].
    cbn [flat_map]. rewrite IH.
    pose proof (in_alphabet_elim alphabet _ Hplain c Hc) as E.
    apply bool_decide_eq_true in E. rewrite E. reflexivity.
  - eapply Forall_impl; [|exact Hr]. intros c Hc.
    apply negb_true_iff. exact (in_alphabet_elim alphabet _ Hws c Hc).
Qed.

Lemma match_literal_i_alphabet (alphabet w s : jsstring) :
  Forall (fun c => in_alphabet alphabet c = true) s ->
  Regex.match_literal_i w s = true ->
  forallb (matches_alphabet alphabet) w = true.
Proof.
  revert s. induction w as [|p w IH]; intros s Hs Hm; [reflexivity|].
  destruct Hs as [|c s Hc Hs]; [discriminate Hm|].
  simpl in Hm. apply andb_true_iff in Hm as [Hcp Hm].
  simpl. apply andb_true_iff. split; [|exact (IH s Hs Hm)].
  apply N.eqb_eq in Hcp. unfold matches_alphabet. apply existsb_exists.
  exists (Regex.canonicalize c). split; [|now apply N.eqb_eq].
  apply in_map. unfold in_alphabet in Hc.
  apply existsb_exists in Hc as (d & Hd & E). apply N.eqb_eq in E. now subst.
Qed.

(** When every denylisted identifier has a letter that no character of the
    alphabet matches, no text over the alphabet is blocked. *)
Lemma alphabet_not_blocked (alphabet r : jsstring) :
  forallb (fun w => negb (forallb (matches_alphabet alphabet) w)) denylist = true ->
  Forall (fun c => in_alphabet alphabet c = true) r ->
  blocked_test r = false.
Proof.
  intros D. unfold blocked_test. induction 1 as [|c r Hc Hr IH].
  - vm_compute. reflexivity.
  - cbn [Regex.test_alternation_i]. rewrite IH, orb_false_r.
    destruct (existsb _ denylist) eqn:E; [|reflexivity].
    apply existsb_exists in E as (w & Hw & Hm).
    apply (match_literal_i_alphabet alphabet) in Hm; [|constructor; assumption].
    rewrite forallb_forall in D.
    specialize (D w Hw). rewrite Hm in D. discriminate D.
Qed.

Lemma keypad_text_reaches_engine (eng : Engine) (r : jsstring) :
  Forall (fun c => in_alphabet keypad_alphabet c = true) r ->
  safeEval eng r = postprocess (eng r).
Proof.
  intros Hr.
  assert (N : normalize r = r) by (apply (alphabet_normalize keypad_alphabet); auto).
  rewrite safeEval_engine; rewrite N.
  - reflexivity.
  - apply (alphabet_not_blocked keypad_alphabet); [vm_compute; reflexivity | exact Hr].
  - apply forallb_forall. rewrite Forall_forall in Hr. intros c Hc.
    exact (in_alphabet_elim keypad_alphabet allowed_char eq_refl c (Hr c Hc)).
Qed.

(** ** The keypad and the button handler *)

(** Every button of the keypad sends [C], [BS], [=] or one character of
    the keypad alphabet. *)
Lemma keypad_data_cases (d : jsstring) :
  In d keypad_data ->
  exists key, d = js "k:" ++ key
    /\ (key = js "C" \/ key = js "BS" \/ key = js "="
        \/ exists c, key = [c] /\ in_alphabet keypad_alphabet c = true
                     /\ key <> js "C" /\ key <> js "BS" /\ key <> js "=").
Proof.
  intros H. vm_compute in H.
  repeat (destruct H as [<- | H];
          [eexists; split; [reflexivity|];
           first [ left; reflexivity
                 | right; left; reflexivity
                 | right; right; left; reflexivity
                 | right; right; right; eexists;
                   split; [reflexivity|];
                   split; [reflexivity|]; repeat split; discriminate ] |]).
  destruct H.
Qed.

Lemma Forall_removelast {A : Type} (P : A -> Prop) (l : list A) :
  Forall P l -> Forall P (removelast l).
Proof.
  induction 1 as [|a l Ha Hl IH]; simpl; [constructor|].
  destruct l; [constructor|]. constructor; assumption.
Qed.

Lemma apply_key_keypad (eng : Engine) (d : jsstring) (s : Session) :
  In d keypad_data ->
  Forall (fun c => in_alphabet keypad_alphabet c = true) (expr s) ->
  exists key, d = js "k:" ++ key
    /\ Forall (fun c => in_alphabet keypad_alphabet c = true)
              (expr (apply_key eng key s)).
Proof.
  intros Hd Hs.
  destruct (keypad_data_cases d Hd)
    as (key & -> & [-> | [-> | [-> | (c & -> & Hc & HC & HBS & HEQ)]]]);
    eexists; (split; [reflexivity|]).
  - rewrite apply_key_clear. constructor.
  - unfold apply_key. case_decide; [discriminate|].
    case_decide; [|contradiction]. cbn [expr]. apply Forall_removelast, Hs.
  - rewrite apply_key_equals. exact Hs.
  - rewrite apply_key_literal by assumption. cbn [expr].
    apply Forall_app. split; [exact Hs|]. constructor; [exact Hc | constructor].
Qed.

Lemma press_all_keypad (eng : Engine) (chatId : Z) :
  forall (events : list (Telegram * jsstring)) (state : State) (s : Session),
    state !! chatId = Some s ->
    Forall (fun c => in_alphabet keypad_alphabet c = true) (expr s) ->
    Forall (fun ev => In (snd ev) keypad_data) events ->
    exists s', press_all eng chatId events state !! chatId = Some s'
      /\ Forall (fun c => in_alphabet keypad_alphabet c = true) (expr s').
Proof.
  induction events as [|[tg d] events IH]; intros state s Hs He Hev.
  - exists s. split; assumption.
  - inversion Hev as [|? ? Hd Hev']; subst. simpl in Hd. cbn [press_all].
    destruct (apply_key_keypad eng d s Hd He) as (key & -> & Hk).
    destruct (callback_query_key eng tg chatId key state) as [(s1 & H1 & F1 & _) _].
    rewrite Hs in F1. change (default fresh_session (Some s)) with s in F1.
    apply (IH _ s1 H1); [rewrite F1; exact Hk | exact Hev'].
Qed.

Lemma calculator_command_session (tg : Telegram) (chatId : Z) (state : State) :
  exists s, fst (calculator_command tg chatId state) !! chatId = Some s
            /\ expr s = [] /\ result s = [].
Proof.
  unfold calculator_command.
  destruct (reply tg _); simpl; rewrite lookup_insert_eq; eauto.
Qed.

(** X3: after the calculator is opened, whatever buttons of the keypad are
    pressed, in whatever order and whatever the platform answers, the
    expression holds keypad characters only, and [safeEval] hands it to the
    engine as it is: [=] can show an error of the engine or "Result is not
    finite.", never "Invalid characters." or "Unsupported expression.". *)
Theorem keypad_expression_reaches_engine (eng : Engine) (tg : Telegram)
    (chatId : Z) (state : State) (events : list (Telegram * jsstring)) :
  Forall (fun ev => In (snd ev) keypad_data) events ->
  exists s,
    press_all eng chatId events (fst (calculator_command tg chatId state))
      !! chatId = Some s
    /\ Forall (fun c => In c keypad_alphabet) (expr s)
    /\ safeEval eng (expr s) = postprocess (eng (expr s)).
Proof.
  intros Hev.
  destruct (calculator_command_session tg chatId state) as (s0 & H0 & E0 & _).
  destruct (press_all_keypad eng chatId events _ s0 H0) as (s & Hs & Hk).
  - rewrite E0. constructor.
  - exact Hev.
  - exists s. split; [exact Hs|]. split.
    + eapply Forall_impl; [|exact Hk]. intros c Hc. unfold in_alphabet in Hc.
      apply existsb_exists in Hc as (d & Hd & E). apply N.eqb_eq in E. now subst.
    + apply keypad_text_reaches_engine, Hk.
Qed.

Lemma keypad_expression_reaches_engine_witness :
  Forall (fun ev => In (snd ev) keypad_data) example_presses
  /\ exists s,
       press_all Arith.evaluate 7 example_presses
         (fst (calculator_command failing_telegram 7 ∅)) !! 7%Z = Some s
       /\ Forall (fun c => In c keypad_alphabet) (expr s)
       /\ safeEval Arith.evaluate (expr s) = postprocess (Arith.evaluate (expr s)).
Proof.
  assert (H : Forall (fun ev => In (snd ev) keypad_data) example_presses).
  { unfold example_presses.
    repeat (apply Forall_cons; [vm_compute; tauto|]). apply Forall_nil. }
  split; [exact H|].
  exact (keypad_expression_reaches_engine Arith.evaluate failing_telegram 7 ∅
           example_presses H).
Defined.

(** X4: [BS] takes back the key pressed just before it: after a key of one
    character (other than [C] and [=]) and then [BS], expression and result
    are what they were, whatever the platform answers in between. *)
Theorem backspace_undoes_key (eng : Engine) (tg1 tg2 : Telegram) (chatId : Z)
    (state : State) (c : N) :
  c <> 0x43 -> c <> 0x3D ->
  let s := default fresh_session (state !! chatId) in
  exists s',
    fst (callback_query eng tg2 chatId (js "k:" ++ js "BS")
           (fst (callback_query eng tg1 chatId (js "k:" ++ [c]) state)))
      !! chatId = Some s'
    /\ expr s' = expr s /\ result s' = result s.
Proof.
  intros HC HEQ s.
  destruct (callback_query_key eng tg1 chatId [c] state) as [(s1 & H1 & F1) _].
  fold s in F1.
  destruct (callback_query_key eng tg2 chatId (js "BS")
              (fst (callback_query eng tg1 chatId (js "k:" ++ [c]) state)))
    as [(s2 & H2 & F2) _].
  rewrite H1 in F2. change (default fresh_session (Some s1)) with s1 in F2.
  exists s2. split; [exact H2|].
  assert (F : same_fields s2 (apply_key eng (js "BS") (apply_key eng [c] s))).
  { eapply same_fields_trans; [exact F2|]. apply apply_key_same_fields, F1. }
  destruct F as [Fe Fr]. rewrite Fe, Fr.
  rewrite (apply_key_literal eng [c] s) by (intros [=]; contradiction).
  unfold apply_key. case_decide; [discriminate|]. case_decide; [|contradiction].
  cbn [expr result]. split; [apply removelast_last | reflexivity].
Qed.

Lemma backspace_undoes_key_witness :
  exists s',
    fst (callback_query Arith.evaluate failing_telegram 7 (js "k:" ++ js "BS")
           (fst (callback_query Arith.evaluate reliable_telegram 7
                   (js "k:" ++ js "7") (<[7%Z := used_session]> ∅))))
      !! 7%Z = Some s'
    /\ expr s' = js "12+3" /\ result s' = js "15".
Proof.
  destruct (backspace_undoes_key Arith.evaluate reliable_telegram failing_telegram 7
              (<[7%Z := used_session]> ∅) 0x37) as (s' & H & He & Hr);
    [discriminate | discriminate |].
  exists s'. split; [exact H|]. split; [exact He | exact Hr].
Defined.

(** ** The button handler and the map of sessions *)



Lemma callback_query_other (eng : Engine) (tg : Telegram) (chatId other : Z)
    (d : jsstring) (state : State) :
  other <> chatId ->
  fst (callback_query eng tg chatId d state) !! other = state !! other.
Proof.
  intros Ho. unfold callback_query.
  destruct (negb (startsWith d (js "k:"))); cbn [fst].
  - apply lookup_insert_ne. congruence.
  - destruct (deliver _ _ _) as [s' h]. cbn [fst].
    rewrite !lookup_insert_ne by congruence. reflexivity.
Qed.

(** X6: button presses in one chat, whatever their data and whatever the
    platform answers, leave the session of every other chat as it is. *)
Theorem presses_stay_in_their_chat (eng : Engine) (chatId other : Z)
    (events : list (Telegram * jsstring)) (state : State) :
  other <> chatId ->
  press_all eng chatId events state !! other = state !! other.
Proof.
  intros Ho. revert state.
  induction events as [|[tg d] events IH]; intros state; [reflexivity|].
  cbn [press_all]. rewrite IH. apply callback_query_other, Ho.
Qed.

Lemma presses_stay_in_their_chat_witness :
  press_all Arith.evaluate 7 example_presses (<[8%Z := used_session]> ∅) !! 8%Z
  = Some used_session.
Proof.
  rewrite (presses_stay_in_their_chat Arith.evaluate 7 8 example_presses);
    [reflexivity | discriminate].
Defined.



(** ** Pretty expressions *)

Lemma replace_all_single (c d : N) (s : jsstring) :
  replace_all c [d] s = List.map (fun x => if x =? c then d else x) s.
Proof.
  induction s as [|x s IH]; simpl; [reflexivity|].
  rewrite IH. destruct (x =? c); reflexivity.
Qed.

Lemma prettyExpr_map (t : jsstring) : prettyExpr t = List.map pretty_char t.
Proof.
  unfold prettyExpr. rewrite !replace_all_single, List.map_map.
  apply List.map_ext. intros x. unfold pretty_char.
  destruct (N.eqb_spec x 0x2A) as [-> | H1]; [reflexivity|].
  reflexivity.
Qed.

Lemma pretty_char_whitespace (c : N) :
  is_whitespace (pretty_char c) = is_whitespace c.
Proof.
  unfold pretty_char.
  destruct (N.eqb_spec c 0x2A) as [-> | H1]; [reflexivity|].
  destruct (N.eqb_spec c 0x2F) as [-> | H2]; reflexivity.
Qed.

Lemma normalize_pretty_char (c : N) :
  normalize_char (pretty_char c) = normalize_char c.
Proof.
  unfold pretty_char.
  destruct (N.eqb_spec c 0x2A) as [-> | H1]; [reflexivity|].
  destruct (N.eqb_spec c 0x2F) as [-> | H2]; reflexivity.
Qed.

Lemma trimStart_map (f : N -> N) (s : jsstring) :
  (forall c, is_whitespace (f c) = is_whitespace c) ->
  trimStart (List.map f s) = List.map f (trimStart s).
Proof.
  intros Hf. induction s as [|c s IH]; simpl; [reflexivity|].
  rewrite Hf. destruct (is_whitespace c); [exact IH | reflexivity].
Qed.

Lemma trim_map (f : N -> N) (s : jsstring) :
  (forall c, is_whitespace (f c) = is_whitespace c) ->
  trim (List.map f s) = List.map f (trim s).
Proof.
  intros Hf. unfold trim, trimEnd.
  rewrite (trimStart_map f s Hf), <- List.map_rev, (trimStart_map f _ Hf),
    List.map_rev. reflexivity.
Qed.

Lemma flat_map_after_map {A B C : Type} (f : B -> list C) (g : A -> B) (l : list A) :
  flat_map f (List.map g l) = flat_map (fun a => f (g a)) l.
Proof. induction l as [|a l IH]; simpl; [reflexivity | now rewrite IH]. Qed.

Lemma normalize_prettyExpr (t : jsstring) : normalize (prettyExpr t) = normalize t.
Proof.
  rewrite !normalize_flat_map, prettyExpr_map.
  rewrite (trim_map pretty_char t pretty_char_whitespace), flat_map_after_map.
  apply flat_map_ext. intros c. apply normalize_pretty_char.
Qed.

(** X8: the expression as a group chat is shown it, with [×] for [*] and
    [÷] for [/], means the same to [safeEval] as the text that was sent:
    both give the same outcome. *)
Theorem pretty_expression_evaluates_alike (eng : Engine) (t : jsstring) :
  safeEval eng (prettyExpr t) = safeEval eng t.
Proof. unfold safeEval. now rewrite normalize_prettyExpr. Qed.

(** ** The admin cache *)

(** X10: in a group, the first answer about the bot's administrator
    status is kept: a later check returns it again and leaves the cache as
    it is, whatever the platform would say then. *)
Theorem admin_answer_is_cached (first later : Z -> option jsstring)
    (chat : Chat) (adminCache : AdminCache) :
  is_group_chat (chat_type chat) = true ->
  let '(answer, adminCache') := isBotAdminInChat first (Some chat) adminCache in
  isBotAdminInChat later (Some chat) adminCache' = (answer, adminCache').
Proof.
  intros Hg. unfold isBotAdminInChat. rewrite Hg. cbn [negb].
  destruct (adminCache !! chat_id chat) as [b|] eqn:E.
  - now rewrite E.
  - destruct (first (chat_id chat)); now rewrite lookup_insert_eq.
Qed.

Lemma admin_answer_is_cached_witness :
  isBotAdminInChat (fun _ => None) (Some (group_chat 5)) (<[5%Z := true]> ∅)
  = (true, <[5%Z := true]> ∅).
Proof.
  exact (admin_answer_is_cached (fun _ => Some (js "administrator"))
           (fun _ => None) (group_chat 5) ∅ eq_refl).
Defined.

(** X11: when the bot leaves a group or is removed from it and the group
    record is updated, the cached answer for that group is dropped, so the
    next check asks the platform again; when the update throws, the cached
    answer stays. *)
Theorem leaving_a_group_clears_the_cache (getChatMember : Z -> option jsstring)
    (chat : Chat) (status : jsstring) (adminCache : AdminCache) :
  is_group_chat (chat_type chat) = true ->
  status = js "left" \/ status = js "kicked" ->
  isBotAdminInChat getChatMember (Some chat)
    (my_chat_member true (Some chat) (Some status) adminCache)
  = isBotAdminInChat getChatMember (Some chat) (delete (chat_id chat) adminCache)
  /\ fst (isBotAdminInChat getChatMember (Some chat)
            (delete (chat_id chat) adminCache))
     = match getChatMember (chat_id chat) with
       | Some st => bool_decide (st = js "administrator")
                    || bool_decide (st = js "creator")
       | None => false
       end
  /\ my_chat_member false (Some chat) (Some status) adminCache = adminCache.
Proof.
  intros Hg Hs. unfold my_chat_member. rewrite Hg. cbn [negb].
  assert (Ht : truthy status = true) by (destruct Hs as [-> | ->]; reflexivity).
  assert (Hl : bool_decide (status = js "left") || bool_decide (status = js "kicked")
               = true) by (destruct Hs as [-> | ->]; reflexivity).
  rewrite Ht, Hl. cbn [negb]. split; [reflexivity|]. split; [|reflexivity].
  unfold isBotAdminInChat. rewrite Hg, lookup_delete_eq. cbn [negb].
  destruct (getChatMember (chat_id chat)); reflexivity.
Qed.

Lemma leaving_a_group_clears_the_cache_witness :
  fst (isBotAdminInChat (fun _ => Some (js "member")) (Some (group_chat 5))
         (my_chat_member true (Some (group_chat 5)) (Some (js "kicked"))
            (<[5%Z := true]> ∅)))
  = false.
Proof.
  destruct (leaving_a_group_clears_the_cache (fun _ => Some (js "member"))
              (group_chat 5) (js "kicked") (<[5%Z := true]> ∅) eq_refl
              (or_intror eq_refl)) as (H1 & H2 & _).
  rewrite H1. exact H2.
Defined.

(** ** Plain text in a group *)

(** X9: in a group or supergroup the text handler answers only with a
    result: if it replies at all, the text is not a command, the bot is an
    administrator there, [safeEval] succeeded, and the reply is the pretty
    expression, [ = ] and the value; that pretty expression evaluates to the
    value shown.  Errors and chats where the bot is no administrator get no
    reply. *)
Theorem group_reply_is_a_result (eng : Engine) (getChatMember : Z -> option jsstring)
    (chat : Chat) (message_text r : jsstring) (adminCache : AdminCache) :
  is_group_chat (chat_type chat) = true ->
  fst (on_text eng getChatMember chat message_text adminCache) = Some r ->
  startsWith (trim message_text) (js "/") = false
  /\ fst (isBotAdminInChat getChatMember (Some chat) adminCache) = true
  /\ exists value,
       safeEval eng (trim message_text) = Ok value
       /\ safeEval eng (prettyExpr (trim message_text)) = Ok value
       /\ r = prettyExpr (trim message_text) ++ js " = " ++ value.
Proof.
  intros Hg. unfold on_text. rewrite Hg.
  destruct (startsWith (trim message_text) (js "/")); [discriminate|].
  destruct (isBotAdminInChat getChatMember (Some chat) adminCache) as [isAdmin c'].
  destruct isAdmin; cbn [negb fst]; [|discriminate].
  destruct (safeEval eng (trim message_text)) as [value|e] eqn:E;
    cbn [fst]; [|discriminate].
  intros [= <-]. split; [reflexivity|]. split; [reflexivity|].
  exists value. split; [reflexivity|]. split; [|reflexivity].
  unfold safeEval in *. now rewrite normalize_prettyExpr.
Qed.

Lemma group_reply_is_a_result_witness :
  fst (on_text Arith.evaluate (fun _ => Some (js "administrator")) (group_chat 5)
         (js " 4*5 ") ∅)
  = Some ([0x34; MULTIPLICATION_SIGN; 0x35] ++ js " = 20")
  /\ safeEval Arith.evaluate [0x34; MULTIPLICATION_SIGN; 0x35] = Ok (js "20").
Proof.
  assert (H : fst (on_text Arith.evaluate (fun _ => Some (js "administrator"))
                     (group_chat 5) (js " 4*5 ") ∅)
              = Some ([0x34; MULTIPLICATION_SIGN; 0x35] ++ js " = 20"))
    by (vm_compute; reflexivity).
  split; [exact H|].
  destruct (group_reply_is_a_result Arith.evaluate _ (group_chat 5) (js " 4*5 ")
              _ ∅ eq_refl H) as (_ & _ & value & E1 & E2 & E3).
  vm_compute in E1. injection E1 as <-. exact E2.
Defined.

(** ** [/broadcast] *)

Lemma fan_out_counts (send : Z -> bool) (recipients : list Z) (ok fail : Z) :
  fan_out send recipients ok fail
  = ((ok + Z.of_nat (List.length (List.filter send recipients)))%Z,
     (fail + Z.of_nat (List.length
                         (List.filter (fun r => negb (send r)) recipients)))%Z).
Proof.
  revert ok fail. induction recipients as [|r rest IH]; intros ok fail.
  - simpl. f_equal; lia.
  - cbn [fan_out List.filter]. destruct (send r); cbn [negb List.length];
      rewrite IH; f_equal; lia.
Qed.

Lemma filter_split_length {A : Type} (f : A -> bool) (l : list A) :
  (List.length (List.filter f l)
   + List.length (List.filter (fun a => negb (f a)) l) = List.length l)%nat.
Proof.
  induction l as [|a l IH]; simpl; [reflexivity|].
  destruct (f a); simpl; lia.
Qed.

(** X12: a broadcast by the owner with a message sends that message once
    to every user and then once to every group, and reports counts that
    match what happened: the users (groups) counted as sent are those for
    which sending succeeded, the failed ones are the others, and the two
    counts add up to the number of users (groups). *)
Theorem broadcast_counts_match (OWNER_ID from_id : Z) (message_text : jsstring)
    (users groups : list Z) (send : Z -> jsstring -> bool) :
  is_owner OWNER_ID from_id = true ->
  truthy (broadcast_args message_text) = true ->
  let msg := broadcast_message (broadcast_args message_text) in
  let sent (ids : list Z) := List.filter (fun r => send r msg) ids in
  let count (ids : list Z) := Z.of_nat (List.length ids) in
  broadcast_command OWNER_ID from_id message_text users groups send
  = (List.map (fun r => (r, msg)) (users ++ groups),
     broadcast_report (count (sent users)) (count users - count (sent users))
                      (count (sent groups)) (count groups - count (sent groups))).
Proof.
  intros Ho Ha msg sent count. unfold broadcast_command.
  rewrite Ho, Ha. cbn [negb]. fold msg.
  rewrite !fan_out_counts. f_equal. subst sent count. cbn beta.
  pose proof (filter_split_length (fun r => send r msg) users).
  pose proof (filter_split_length (fun r => send r msg) groups).
  f_equal; lia.
Qed.

Lemma broadcast_counts_match_witness :
  snd (broadcast_command 9 9 (js "/broadcast hello") [1; 2; 3]%Z [-4]%Z
         (fun r _ => (r =? 2)%Z))
  = broadcast_report 1 2 0 1.
Proof.
  rewrite (broadcast_counts_match 9 9 (js "/broadcast hello") [1; 2; 3]%Z [-4]%Z
             (fun r _ => (r =? 2)%Z) eq_refl eq_refl).
  reflexivity.
Defined.

(** X13: nobody but the configured owner broadcasts: when no owner id is
    set (it is [0]) or the caller is someone else, nothing is sent and the
    reply is the refusal, whatever the message. *)
Theorem broadcast_needs_the_owner (OWNER_ID from_id : Z) (message_text : jsstring)
    (users groups : list Z) (send : Z -> jsstring -> bool) :
  OWNER_ID = 0%Z \/ from_id <> OWNER_ID ->
  broadcast_command OWNER_ID from_id message_text users groups send
  = ([], CROSS_MARK ++ js " Owner only command.").
Proof.
  intros H. unfold broadcast_command, is_owner.
  destruct H as [-> | H]; [reflexivity|].
  destruct (Z.eqb_spec from_id OWNER_ID) as [E | _]; [contradiction|].
  rewrite andb_false_r. reflexivity.
Qed.

Lemma broadcast_needs_the_owner_witness :
  broadcast_command 0 0 (js "/broadcast hello") [1; 2]%Z [] (fun _ _ => true)
  = ([], CROSS_MARK ++ js " Owner only command.").
Proof.
  apply broadcast_needs_the_owner. left. reflexivity.
Defined.

Lemma split_on_nonempty (c : N) (s : jsstring) : split_on c s <> [].
Proof.
  destruct s as [|d s]; simpl; [discriminate|].
  destruct (d =? c); [discriminate|]. destruct (split_on c s); discriminate.
Qed.

Lemma join_cons_char (sep : jsstring) (d : N) (p : jsstring) (ps : list jsstring) :
  join sep ((d :: p) :: ps) = d :: join sep (p :: ps).
Proof. simpl. destruct ps; reflexivity. Qed.

Lemma split_on_prefix (c : N) (word rest : jsstring) :
  Forall (fun d => (d =? c) = false) word ->
  split_on c (word ++ c :: rest) = word :: split_on c rest.
Proof.
  induction 1 as [|d word Hd Hw IH]; simpl.
  - now rewrite N.eqb_refl.
  - rewrite Hd, IH. reflexivity.
Qed.

Lemma split_on_word (c : N) (word : jsstring) :
  Forall (fun d => (d =? c) = false) word -> split_on c word = [word].
Proof.
  induction 1 as [|d word Hd Hw IH]; simpl; [reflexivity|].
  rewrite Hd, IH. reflexivity.
Qed.

(** Splitting at a character and joining with it gives the text back. *)
Lemma join_split_on (c : N) (s : jsstring) : join [c] (split_on c s) = s.
Proof.
  induction s as [|d s IH]; [reflexivity|].
  cbn [split_on]. destruct (N.eqb_spec d c) as [-> | Hne].
  - pose proof (split_on_nonempty c s) as Hn.
    cbn [join]. destruct (split_on c s) as [|p ps]; [contradiction|].
    cbn [app]. now rewrite IH.
  - pose proof (split_on_nonempty c s) as Hn.
    destruct (split_on c s) as [|p ps]; [contradiction|].
    rewrite join_cons_char, IH. reflexivity.
Qed.

(** X14: the message of a broadcast is what follows the first space of the
    command text, trimmed, spaces inside it kept as they are; a command
    text without a space has no message. *)
Theorem broadcast_args_after_first_space (command rest : jsstring) :
  Forall (fun d => (d =? SPACE) = false) command ->
  broadcast_args (command ++ SPACE :: rest) = trim rest
  /\ broadcast_args command = [].
Proof.
  intros H. unfold broadcast_args. split.
  - rewrite (split_on_prefix SPACE command rest H).
    change (skipn 1 (command :: split_on SPACE rest)) with (split_on SPACE rest).
    now rewrite join_split_on.
  - rewrite (split_on_word SPACE command H). reflexivity.
Qed.

Lemma broadcast_args_after_first_space_witness :
  broadcast_args (js "/broadcast" ++ SPACE :: js " two  words ") = js "two  words".
Proof.
  destruct (broadcast_args_after_first_space (js "/broadcast") (js " two  words "))
    as [H _]; [repeat constructor|].
  rewrite H. reflexivity.
Defined.

(** ** More on [safeEval] *)

Lemma flat_map_commas (s : jsstring) :
  Forall (fun c => c = COMMA) s -> flat_map normalize_char s = [].
Proof. induction 1 as [|c s -> Hs IH]; [reflexivity | exact IH]. Qed.

(** X15: a text made of grouping commas only is not empty for the callers,
    who test the trimmed text before they evaluate, but is empty for the
    engine: [safeEval] drops the commas and returns what the engine makes of
    the empty text. *)
Theorem commas_reach_engine_as_empty (eng : Engine) (s : jsstring) :
  s <> [] ->
  Forall (fun c => c = COMMA) s ->
  truthy (trim s) = true
  /\ safeEval eng s = postprocess (eng []).
Proof.
  intros Hne Hs.
  assert (T : trim s = s).
  { apply trim_no_whitespace. eapply Forall_impl; [|exact Hs]. now intros c ->. }
  split.
  - rewrite T. destruct s; [contradiction | reflexivity].
  - unfold safeEval. rewrite normalize_flat_map, T, (flat_map_commas s Hs).
    reflexivity.
Qed.

Lemma commas_reach_engine_as_empty_witness :
  calc_command Arith.evaluate (js "/calc ,") = result_reply (js ",") (js "undefined").
Proof.
  destruct (commas_reach_engine_as_empty Arith.evaluate (js ","))
    as [_ H]; [discriminate | repeat constructor |].
  unfold calc_command. cbv zeta.
  change (trim (replace_first (js "/calc") [] (js "/calc ,"))) with (js ",").
  change (truthy (js ",")) with true. cbn [negb]. rewrite H. reflexivity.
Defined.

Lemma thrown_message_postprocess (r : EngineResult) (m : jsstring) :
  m <> js "Result is not finite." ->
  thrown_message (postprocess r) = Some m <-> r = Raises m.
Proof.
  intros Hm. destruct r as [[x|text]|msg]; simpl.
  - destruct (Num.isFinite x); simpl; split; try discriminate.
    intros [= H]. now elim Hm.
  - split; discriminate.
  - split; intros [= ->]; reflexivity.
Qed.

(** X16: when a caller sees the message of a guard.  [safeEval] throws
    "Unsupported expression." if and only if the normalized input holds a
    denylisted identifier, or passes both guards and the engine itself
    throws an error with that message; it throws "Invalid characters." if
    and only if the normalized input holds no denylisted identifier but a
    character outside the allowlist, or passes both guards and the engine
    itself throws an error with that message. *)
Theorem guard_messages_are_exact (eng : Engine) (s : jsstring) :
  let passes :=
    ~ has_denylisted (normalize s) /\ ~ has_disallowed_char (normalize s) in
  (thrown_message (safeEval eng s) = Some (js "Unsupported expression.")
   <-> has_denylisted (normalize s)
       \/ (passes /\ eng (normalize s) = Raises (js "Unsupported expression.")))
  /\ (thrown_message (safeEval eng s) = Some (js "Invalid characters.")
      <-> (~ has_denylisted (normalize s) /\ has_disallowed_char (normalize s))
          \/ (passes /\ eng (normalize s) = Raises (js "Invalid characters."))).
Proof.
  cbv zeta. rewrite <- blocked_test_spec, <- allowed_test_false. unfold safeEval.
  destruct (blocked_test (normalize s)).
  - split; split.
    + intros _. now left.
    + reflexivity.
    + discriminate.
    + intros [[H _] | [[H _] _]]; now elim H.
  - destruct (allowed_test (normalize s)); cbn [negb].
    + rewrite !thrown_message_postprocess by discriminate.
      split; split.
      * intros H. right. split; [split; discriminate | exact H].
      * intros [H | [_ H]]; [discriminate H | exact H].
      * intros H. right. split; [split; discriminate | exact H].
      * intros [[_ H] | [_ H]]; [discriminate H | exact H].
    + split; split.
      * discriminate.
      * intros [H | [[_ H] _]]; [discriminate H | now elim H].
      * intros _. left. split; [discriminate | reflexivity].
      * reflexivity.
Qed.

(** X17: a numeric success value whose number is finite is written with
    digits, [.], [-], [+] and [e] only, and is itself an input that passes
    normalization unchanged and both guards, for any engine. *)
Theorem numeric_output_is_valid_input (eng eng' : Engine) (s r : jsstring) (x : float) :
  eng (normalize s) = Returns (VNumber x) ->
  safeEval eng s = Ok r ->
  Num.isFinite (round12 x) = true ->
  Forall (fun c => In c numeric_alphabet) r
  /\ normalize r = r
  /\ safeEval eng' r = postprocess (eng' r).
Proof.
  intros He Hs Hfin.
  destruct (safeEval_number eng s r x He Hs) as [_ ->].
  pose proof (Number_toString_numeric _ Hfin) as Hn.
  split; [|split].
  - eapply Forall_impl; [|exact Hn]. intros c Hc. unfold numeric_char in Hc.
    apply existsb_exists in Hc as (d & Hd & E). apply N.eqb_eq in E. now subst.
  - apply numeric_normalize, Hn.
  - apply safeEval_number_text, Hfin.
Qed.

Lemma numeric_output_is_valid_input_witness :
  safeEval Arith.evaluate (js "1/3") = Ok (js "0.333333333333")
  /\ normalize (js "0.333333333333") = js "0.333333333333".
Proof.
  assert (H : safeEval Arith.evaluate (js "1/3") = Ok (js "0.333333333333"))
    by (vm_compute; reflexivity).
  split; [exact H|].
  exact (proj1 (proj2 (numeric_output_is_valid_input Arith.evaluate Arith.evaluate
                         (js "1/3") (js "0.333333333333") (1 / 3)%float
                         ltac:(vm_compute; reflexivity) H
                         ltac:(vm_compute; reflexivity)))).
Defined.

(** ** [/calc] and a private chat *)

Lemma replace_first_unfold (pattern by_ s : jsstring) :
  replace_first pattern by_ s
  = if startsWith s pattern then by_ ++ skipn (List.length pattern) s
    else match s with
         | [] => []
         | c :: s' => c :: replace_first pattern by_ s'
         end.
Proof. destruct s; reflexivity. Qed.

Lemma replace_first_prefix (pattern rest : jsstring) :
  replace_first pattern [] (pattern ++ rest) = rest.
Proof.
  assert (S : startsWith (pattern ++ rest) pattern = true).
  { induction pattern as [|p pattern IH]; simpl; [reflexivity|].
    now rewrite N.eqb_refl, IH. }
  rewrite replace_first_unfold, S. cbn [app].
  change (drop (List.length pattern) (pattern ++ rest) = rest).
  apply drop_app_length.
Qed.

(** X18: [/calc] followed by a space and a text answers as a private chat
    answers that text sent alone, when the text is not blank and does not
    start with [/]. *)
Theorem calc_answers_like_private_chat (eng : Engine)
    (getChatMember : Z -> option jsstring) (id : Z) (t : jsstring)
    (adminCache : AdminCache) :
  truthy (trim t) = true ->
  startsWith (trim t) (js "/") = false ->
  on_text eng getChatMember {| chat_id := id; chat_type := Private |} t adminCache
  = (Some (calc_command eng (js "/calc " ++ t)), adminCache).
Proof.
  intros Ht Hc. unfold on_text, calc_command. rewrite Hc. cbn [is_group_chat].
  change (js "/calc " ++ t) with (js "/calc" ++ SPACE :: t).
  rewrite replace_first_prefix.
  change (trim (SPACE :: t)) with (trim t). rewrite Ht. cbn [negb].
  destruct (safeEval eng (trim t)); reflexivity.
Qed.

Lemma calc_answers_like_private_chat_witness :
  fst (on_text Arith.evaluate (fun _ => None)
         {| chat_id := 3; chat_type := Private |} (js "2+2") ∅)
  = Some (result_reply (js "2+2") (js "4")).
Proof.
  rewrite (calc_answers_like_private_chat Arith.evaluate (fun _ => None) 3
             (js "2+2") ∅ eq_refl eq_refl).
  vm_compute. reflexivity.
Defined.

(** ** The older variant: users, groups and the dashboard *)

Lemma set_add_In (x y : Z) (set : list Z) :
  In x (set_add y set) <-> x = y \/ In x set.
Proof.
  unfold set_add. destruct (existsb (Z.eqb y) set) eqn:E.
  - apply existsb_exists in E as (z & Hz & Hyz). apply Z.eqb_eq in Hyz. subst z.
    split; [now right|]. intros [-> | H]; assumption.
  - rewrite in_app_iff. simpl. split.
    + intros [H | [<- | []]]; [now right | now left].
    + intros [-> | H]; [right; now left | now left].
Qed.

Lemma set_add_NoDup (y : Z) (set : list Z) : NoDup set -> NoDup (set_add y set).
Proof.
  intros H. unfold set_add. destruct (existsb (Z.eqb y) set) eqn:E; [exact H|].
  assert (Hy : ~ In y set).
  { intros Hin. assert (existsb (Z.eqb y) set = true) as E'.
    { apply existsb_exists. exists y. split; [exact Hin | apply Z.eqb_refl]. }
    congruence. }
  clear E. induction H as [|a l Ha Hl IH]; simpl.
  - constructor; [intros [] | constructor].
  - constructor.
    + rewrite in_app_iff. simpl. intros [Hin | [<- | []]]; [now apply Ha|].
      apply Hy. now left.
    + apply IH. intros Hin. apply Hy. now right.
Qed.

Lemma map_set_keys (k : Z) (v : GroupInfo) (m : list (Z * GroupInfo)) :
  List.map fst (map_set k v m) = set_add k (List.map fst m).
Proof.
  unfold set_add. induction m as [|[k' v'] m IH]; [reflexivity|].
  cbn [map_set List.map fst existsb].
  destruct (Z.eqb_spec k k') as [-> | Hne]; [reflexivity|].
  cbn [orb List.map fst]. rewrite IH.
  destruct (existsb (Z.eqb k) (List.map fst m)); reflexivity.
Qed.

Lemma trackContext_users (ctx : Context) (st : list Z * list (Z * GroupInfo)) (x : Z) :
  In x (fst (trackContext ctx st))
  <-> In x (fst st) \/ (ctx_from ctx = Some x /\ x <> 0%Z).
Proof.
  destruct st as [users groups]. unfold trackContext. cbn [fst].
  destruct (ctx_from ctx) as [id|].
  - destruct (Z.eqb_spec id 0) as [-> | Hne].
    + split; [now left|]. intros [H | [[= <-] H]]; [exact H | contradiction].
    + rewrite set_add_In. split.
      * intros [-> | H]; [right; split; [reflexivity | exact Hne] | now left].
      * intros [H | [[= <-] _]]; [now right | now left].
  - split; [now left|]. intros [H | [[=] _]]. exact H.
Qed.

Lemma trackContext_NoDup (ctx : Context) (st : list Z * list (Z * GroupInfo)) :
  NoDup (fst st) -> NoDup (List.map fst (snd st)) ->
  NoDup (fst (trackContext ctx st))
  /\ NoDup (List.map fst (snd (trackContext ctx st))).
Proof.
  destruct st as [users groups]. unfold trackContext. cbn [fst snd].
  intros Hu Hg. split.
  - destruct (ctx_from ctx) as [id|]; [|exact Hu].
    destruct (id =? 0)%Z; [exact Hu | apply set_add_NoDup, Hu].
  - destruct (ctx_chat ctx) as [chat|]; [|exact Hg].
    destruct (is_group_chat (chat_type chat)); [|exact Hg].
    rewrite map_set_keys. apply set_add_NoDup, Hg.
Qed.

(** X19: the Set of users and the Map of groups of the older variant stay
    free of duplicates however many updates are tracked, and the users known
    afterwards are those known before and every sender seen with an id other
    than [0]: someone who writes to the bot many times is one recipient of a
    broadcast. *)
Theorem tracked_users_are_the_senders (ctxs : list Context)
    (users : list Z) (groups : list (Z * GroupInfo)) :
  NoDup users -> NoDup (List.map fst groups) ->
  let '(users', groups') := track_all ctxs (users, groups) in
  NoDup users' /\ NoDup (List.map fst groups')
  /\ forall x, In x users'
               <-> In x users
                   \/ exists ctx, In ctx ctxs /\ ctx_from ctx = Some x /\ x <> 0%Z.
Proof.
  unfold track_all. revert users groups.
  induction ctxs as [|ctx ctxs IH]; intros users groups Hu Hg.
  - cbn [fold_left]. split; [exact Hu|]. split; [exact Hg|].
    intros x. split; [now left|]. intros [H | (ctx & [] & _)]. exact H.
  - cbn [fold_left].
    pose proof (trackContext_NoDup ctx (users, groups) Hu Hg) as [Hu1 Hg1].
    pose proof (trackContext_users ctx (users, groups)) as Hin.
    destruct (trackContext ctx (users, groups)) as [users1 groups1].
    cbn [fst snd] in *. specialize (IH users1 groups1 Hu1 Hg1).
    destruct (fold_left _ ctxs (users1, groups1)) as [users' groups'].
    destruct IH as (Hu' & Hg' & IH). split; [exact Hu'|]. split; [exact Hg'|].
    intros x. rewrite IH, Hin. split.
    + intros [[H | (Hf & Hx)] | (c & Hc & Hf & Hx)].
      * now left.
      * right. exists ctx. split; [now left | auto].
      * right. exists c. split; [now right | auto].
    + intros [H | (c & [<- | Hc] & Hf & Hx)].
      * left. now left.
      * left. right. auto.
      * right. exists c. auto.
Qed.

Lemma tracked_users_are_the_senders_witness :
  fst (track_all [user_context 4; user_context 0; user_context 4; user_context 2]
         ([], []))
  = [4; 2]%Z
  /\ NoDup [4; 2]%Z.
Proof.
  split; [reflexivity|].
  exact (proj1 (tracked_users_are_the_senders
                  [user_context 4; user_context 0; user_context 4; user_context 2]
                  [] [] (NoDup_nil Z) (NoDup_nil Z))).
Defined.

Lemma group_list_from_closed (totalGroups : Z) :
  forall (entries : list (Z * GroupInfo)) (n : nat) (index : Z) (groupList : jsstring),
    (index = 31 - Z.of_nat n)%Z ->
    group_list_from entries totalGroups index groupList
    = groupList ++ numbered_lines index (firstn n entries)
        ++ (if (n <? List.length entries)%nat then more_line totalGroups else []).
Proof.
  induction entries as [|[chatId info] rest IH]; intros n index groupList Hi.
  - cbn [group_list_from]. rewrite firstn_nil. cbn. now rewrite app_nil_r.
  - cbn [group_list_from]. destruct n as [|n].
    + assert (E : (30 <? index)%Z = true) by (apply Z.ltb_lt; lia).
      rewrite E. reflexivity.
    + assert (E : (30 <? index)%Z = false) by (apply Z.ltb_ge; lia).
      rewrite E, (IH n) by lia.
      cbn [firstn numbered_lines List.length]. rewrite <- !app_assoc.
      reflexivity.
Qed.

(** X20: the group list of the older dashboard shows the first thirty
    groups, numbered from 1 in the order of the Map, and after them the
    "and more" line exactly when there are more than thirty. *)
Theorem group_list_shows_thirty (entries : list (Z * GroupInfo)) (totalGroups : Z) :
  group_list_from entries totalGroups 1 []
  = numbered_lines 1 (firstn 30 entries)
      ++ (if (30 <? List.length entries)%nat then more_line totalGroups else []).
Proof. apply (group_list_from_closed totalGroups entries 30 1 []). reflexivity. Qed.
